(** * The [Game] model and the seeding script of [seed_db]

    A shallow embedding of [seed_db/app/db.py] (the declarative [Game]
    mapping) and of [seed_db/debug.py] (the seeding script), together with
    the properties of the two that the specification states.

    Layout:
    - Python values and exceptions;
    - the column declarations of [Game] and [Game.__repr__];
    - the storage layer that the script's connection string selects
      (SQLite behind the SQLAlchemy unit of work), driven by the column
      declarations;
    - the script as a sequence of library calls, run against a world;
    - the theorems. *)

From Stdlib Require Import ZArith String Ascii List Bool Lia DecimalString.
From Stdlib Require Import DecimalPos DecimalZ.
Import ListNotations.

Local Open Scope string_scope.
Local Open Scope Z_scope.

(** ** Python values *)

(** The double quote character, which the f-strings of [__repr__] print. *)
Definition dq : string := String "034"%char EmptyString.

(** [datetime] values.  Only their identity matters here, so a timestamp is
    a number of seconds. *)
Definition Timestamp : Type := Z.

(** Python's [str()], which an f-string applies to each replacement field
    without a format spec. *)
Class Str (T : Type) : Type := str : T -> string.

#[export] Instance Str_int : Str Z :=
  fun z => NilZero.string_of_int (Z.to_int z).

#[export] Instance Str_str : Str string := fun s => s.

(** An attribute that was never assigned, or a NULL column, is [None]. *)
#[export] Instance Str_optional {T : Type} `{Str T} : Str (option T) :=
  fun o => match o with
           | Some x => str x
           | None => "None"
           end.

(** Exceptions that the library calls of the two files can raise. *)
Inductive Exception : Type :=
| ModuleNotFoundError (name : string)
| ArgumentError
| NoSuchModuleError (dialect : string)
| OverflowError
| IntegrityError
| OperationalError
| StaleDataError
| BdbQuit.

(** A computation either returns or raises. *)
Inductive Result (A : Type) : Type :=
| Ok (a : A)
| Raise (e : Exception).

Arguments Ok {A} a.
Arguments Raise {A} e.

Definition and_then {A B : Type} (c : Result A) (k : A -> Result B)
  : Result B :=
  match c with
  | Ok a => k a
  | Raise e => Raise e
  end.

Declare Scope result_scope.
Delimit Scope result_scope with result.
Notation "x <- c ;; k" := (and_then c (fun x => k))
  (at level 61, c at next level, right associativity) : result_scope.

(** ** Column declarations ([sqlalchemy.Column]) *)

Inductive SqlType : Type := Integer | String_ | DateTime.

(** The Python type of the values a column of each type carries. *)
Definition py (ty : SqlType) : Type :=
  match ty with
  | Integer => Z
  | String_ => string
  | DateTime => Timestamp
  end.

(** A SQL function evaluated by the database when the statement runs; it
    sees the database clock. *)
Definition SqlFunc (ty : SqlType) : Type := Timestamp -> py ty.

Module func.
(** [func.now()], rendered as [CURRENT_TIMESTAMP]. *)
Definition now : SqlFunc DateTime := fun clock => clock.
End func.

(** [Column(type_, primary_key=False, server_default=None, onupdate=None)]. *)
Record Column (ty : SqlType) : Type := mkColumn {
  primary_key : bool;
  server_default : option (SqlFunc ty);
  onupdate : option (SqlFunc ty)
}.

Arguments mkColumn {ty}.
Arguments primary_key {ty}.
Arguments server_default {ty}.
Arguments onupdate {ty}.

(** ** [class Game(Base)] *)

Module Game.

Definition __tablename__ : string := "games".

(** The class attributes, as in [Game.__table__.c]. *)
Module c.
Definition id : Column Integer := mkColumn true None None.
Definition title : Column String_ := mkColumn false None None.
Definition genre : Column String_ := mkColumn false None None.
Definition platform : Column String_ := mkColumn false None None.
Definition price : Column Integer := mkColumn false None None.
Definition created_at : Column DateTime :=
    mkColumn false (Some func.now) None.
Definition updated_at : Column DateTime :=
    mkColumn false None (Some func.now).
End c.

(** An instance: one attribute per column, [None] when unset or NULL. *)
Record t : Type := mk {
  id : option Z;
  title : option string;
  genre : option string;
  platform : option string;
  price : option Z;
  created_at : option Timestamp;
  updated_at : option Timestamp
}.

(** Three f-strings joined by [+], the last of which closes the
    parenthesis before the quote. *)
Definition __repr__ (self : t) : string :=
  ("Game(id=" ++ str (id self) ++ ", ") ++
  ("title=" ++ dq ++ str (title self) ++ dq ++ ", ") ++
  ("platform=" ++ dq ++ str (platform self) ++ ")" ++ dq).

End Game.

(** ** The storage layer

    The script connects with a [sqlite:///] URL, so the [games] table is a
    SQLite table created from the column declarations above: [id] is an
    [INTEGER PRIMARY KEY], that is the rowid; [created_at] carries
    [DEFAULT CURRENT_TIMESTAMP]; [updated_at] has no DDL default, its
    [onupdate] is added by the library to every UPDATE that does not set
    the column itself.  Rows are kept in insertion order. *)

Definition Table : Type := list Game.t.

(** A SQLite INTEGER is a signed 64-bit number; the driver raises
    [OverflowError] for a Python [int] outside this range. *)
Definition MIN_INT64 : Z := - 2 ^ 63.
Definition MAX_ROWID : Z := 2 ^ 63 - 1.

Definition fits (ty : SqlType) : py ty -> bool :=
  match ty with
  | Integer => fun z => (MIN_INT64 <=? z) && (z <=? MAX_ROWID)
  | String_ => fun _ => true
  | DateTime => fun _ => true
  end.

Definition py_eqb (ty : SqlType) : py ty -> py ty -> bool :=
  match ty with
  | Integer => Z.eqb
  | String_ => String.eqb
  | DateTime => Z.eqb
  end.

Definition optional_eqb (ty : SqlType) (a b : option (py ty)) : bool :=
  match a, b with
  | Some x, Some y => py_eqb ty x y
  | None, None => true
  | _, _ => false
  end.

(** Binding a Python value as a statement parameter. *)
Definition bind_param (ty : SqlType) (v : option (py ty))
  : Result (option (py ty)) :=
  match v with
  | Some x => if fits ty x then Ok v else Raise OverflowError
  | None => Ok None
  end.

(** What the database sees besides the table when a statement runs: its
    clock, and the random numbers rowid allocation may draw. *)
Record Moment : Type := mkMoment {
  clock : Timestamp;
  randomness : list Z
}.

Definition is_pk (pk : Z) (r : Game.t) : bool :=
  match Game.id r with
  | Some i => i =? pk
  | None => false
  end.

Definition has_pk (pk : Z) (t : Table) : bool := existsb (is_pk pk) t.

(** [session.get(Game, pk)]. *)
Definition get (pk : Z) (t : Table) : option Game.t := find (is_pk pk) t.

Definition max_rowid (t : Table) : option Z :=
  fold_right
    (fun r acc =>
       match Game.id r, acc with
       | Some i, Some m => Some (Z.max i m)
       | Some i, None => Some i
       | None, _ => acc
       end)
    None t.

(** A random number made positive, as rowid allocation does once the
    largest rowid is taken. *)
Definition candidate (raw : Z) : Z := Z.land raw (Z.shiftr MAX_ROWID 1) + 1.

(** The rowid of a row inserted without one: 1 in an empty table, else one
    more than the largest rowid in use; when that is the largest possible
    integer, the first unused of at most 100 random candidates, and
    SQLITE_FULL when none is free. *)
Definition new_rowid (m : Moment) (t : Table) : Result Z :=
  match max_rowid t with
  | None => Ok 1
  | Some v =>
      if v <? MAX_ROWID then Ok (v + 1)
      else match find (fun c => negb (has_pk c t))
                   (map candidate (firstn 100 (randomness m))) with
           | Some c => Ok c
           | None => Raise OperationalError
           end
  end.

(** The value an INSERT stores in a column: the bound parameter, or for an
    attribute left [None] (which the unit of work omits from the
    statement) the column's server default, NULL without one. *)
Definition insert_value {ty : SqlType} (col : Column ty) (m : Moment)
  (v : option (py ty)) : Result (option (py ty)) :=
  (p <- bind_param ty v ;;
   match p with
   | Some x => Ok (Some x)
   | None => Ok (option_map (fun f => f (clock m)) (server_default col))
   end)%result.

(** [session.add(g); session.commit()]: the flush of one pending object.
    Returns the row as stored together with the new table. *)
Definition insert (m : Moment) (g : Game.t) (t : Table)
  : Result (Game.t * Table) :=
  (id_ <- bind_param Integer (Game.id g) ;;
   title_ <- insert_value Game.c.title m (Game.title g) ;;
   genre_ <- insert_value Game.c.genre m (Game.genre g) ;;
   platform_ <- insert_value Game.c.platform m (Game.platform g) ;;
   price_ <- insert_value Game.c.price m (Game.price g) ;;
   created_at_ <- insert_value Game.c.created_at m (Game.created_at g) ;;
   updated_at_ <- insert_value Game.c.updated_at m (Game.updated_at g) ;;
   rowid <- match id_ with
            | Some i => if has_pk i t then Raise IntegrityError else Ok i
            | None => new_rowid m t
            end ;;
   let row := Game.mk (Some rowid) title_ genre_ platform_ price_
                created_at_ updated_at_ in
   Ok (row, (t ++ [row])%list))%result.

(** Attribute assignments made to a persistent object since it was loaded:
    [None] for an attribute left alone, [Some v] for [obj.attr = v]. *)
Module Assign.
Record t : Type := mk {
  id : option (option Z);
  title : option (option string);
  genre : option (option string);
  platform : option (option string);
  price : option (option Z);
  created_at : option (option Timestamp);
  updated_at : option (option Timestamp)
}.
End Assign.

(** Whether an assignment enters the SET clause.  For an object whose
    attributes had been loaded when they were assigned, only a net change
    does: a new value that differs from the loaded one.  For an object
    that was [expired] then, as every object is after a commit, the old
    value is unknown and every assignment does. *)
Definition changed (expired : bool) (ty : SqlType)
  (a : option (option (py ty))) (cur : option (py ty)) : bool :=
  match a with
  | Some v => expired || negb (optional_eqb ty v cur)
  | None => false
  end.

(** Whether the flush emits an UPDATE.  Assigning the primary key loads
    its old value first, so for [id] only a net change counts. *)
Definition dirty (expired : bool) (a : Assign.t) (r : Game.t) : bool :=
  changed false Integer (Assign.id a) (Game.id r)
  || changed expired String_ (Assign.title a) (Game.title r)
  || changed expired String_ (Assign.genre a) (Game.genre r)
  || changed expired String_ (Assign.platform a) (Game.platform r)
  || changed expired Integer (Assign.price a) (Game.price r)
  || changed expired DateTime (Assign.created_at a) (Game.created_at r)
  || changed expired DateTime (Assign.updated_at a) (Game.updated_at r).

(** The value an UPDATE leaves in a column: the assigned value, bound as
    a parameter, when it is in the SET clause, else the column's
    [onupdate], else the old value. *)
Definition update_value {ty : SqlType} (expired : bool) (col : Column ty)
  (m : Moment) (a : option (option (py ty))) (cur : option (py ty))
  : Result (option (py ty)) :=
  match a with
  | Some v =>
      if expired || negb (optional_eqb ty v cur)
      then bind_param ty v
      else Ok (match onupdate col with
               | Some f => Some (f (clock m))
               | None => cur
               end)
  | None => Ok (match onupdate col with
                | Some f => Some (f (clock m))
                | None => cur
                end)
  end.

(** UPDATE ... WHERE id = pk rewrites the rows under [pk]. *)
Definition replace_row (pk : Z) (row x : Game.t) : Game.t :=
  if is_pk pk x then row else x.

(** The flush of one persistent object, held under primary key [pk],
    after the assignments [a].  Without anything for the SET clause no
    UPDATE is emitted.  Otherwise the parameters are bound first, and the
    statement then fails when no row is left under [pk], when the new
    primary key is NULL, or when it is taken. *)
Definition flush (expired : bool) (m : Moment) (pk : Z) (a : Assign.t)
  (t : Table) : Result Table :=
  match get pk t with
  | None => Raise StaleDataError
  | Some r =>
      if negb (dirty expired a r) then Ok t
      else
        (id_ <- update_value false Game.c.id m (Assign.id a) (Game.id r) ;;
         title_ <- update_value expired Game.c.title m (Assign.title a)
                     (Game.title r) ;;
         genre_ <- update_value expired Game.c.genre m (Assign.genre a)
                     (Game.genre r) ;;
         platform_ <- update_value expired Game.c.platform m
                        (Assign.platform a) (Game.platform r) ;;
         price_ <- update_value expired Game.c.price m (Assign.price a)
                     (Game.price r) ;;
         created_at_ <- update_value expired Game.c.created_at m
                          (Assign.created_at a) (Game.created_at r) ;;
         updated_at_ <- update_value expired Game.c.updated_at m
                          (Assign.updated_at a) (Game.updated_at r) ;;
         match id_ with
         | None => Raise IntegrityError
         | Some rowid =>
             if negb (rowid =? pk) && has_pk rowid t
             then Raise IntegrityError
             else
               let row := Game.mk (Some rowid) title_ genre_ platform_
                            price_ created_at_ updated_at_ in
               Ok (map (replace_row pk row) t)
         end)%result
  end.

(** The flush of an object whose attributes were loaded before they were
    assigned. *)
Definition update (m : Moment) (pk : Z) (a : Assign.t) (t : Table)
  : Result Table :=
  flush false m pk a t.

(** The tables the storage layer can hold: it starts empty and changes
    only by flushes that succeed. *)
Inductive reachable : Table -> Prop :=
| reachable_empty : reachable []
| reachable_insert m g t r t' :
    reachable t -> insert m g t = Ok (r, t') -> reachable t'
| reachable_flush expired m pk a t t' :
    reachable t -> flush expired m pk a t = Ok t' -> reachable t'.

(** The largest rowid in use is below the maximum, so that allocation
    succeeds. *)
Definition has_room (t : Table) : Prop :=
  match max_rowid t with
  | Some v => v < MAX_ROWID
  | None => True
  end.

(** The value an attribute holds after the assignments. *)
Definition assigned {T : Type} (a : option T) (cur : T) : T :=
  match a with
  | Some v => v
  | None => cur
  end.

(** The row an UPDATE of [r] under the assignments [a] writes. *)
Definition updated_row (expired : bool) (m : Moment) (a : Assign.t)
  (r : Game.t) (rowid : Z) : Game.t :=
  Game.mk (Some rowid)
    (assigned (Assign.title a) (Game.title r))
    (assigned (Assign.genre a) (Game.genre r))
    (assigned (Assign.platform a) (Game.platform r))
    (assigned (Assign.price a) (Game.price r))
    (assigned (Assign.created_at a) (Game.created_at r))
    (if changed expired DateTime (Assign.updated_at a) (Game.updated_at r)
     then assigned (Assign.updated_at a) (Game.updated_at r)
     else Some (clock m)).

(** Sample data. *)
Definition noon : Moment := mkMoment 1200 [].
Definition later : Moment := mkMoment 1300 [].

Definition zelda : Game.t :=
  Game.mk None (Some "Breath of the Wild") (Some "Adventure")
    (Some "Switch") (Some 60) None None.

Definition zelda_row : Game.t :=
  Game.mk (Some 1) (Some "Breath of the Wild") (Some "Adventure")
    (Some "Switch") (Some 60) (Some 1200) None.

Definition seeded : Table := [zelda_row].

Definition priced (v : Z) : Game.t :=
  Game.mk None (Some "Tetris") (Some "Puzzle") (Some "Game Boy") (Some v)
    None None.

Definition discount : Assign.t :=
  Assign.mk None None None None (Some (Some 45)) None None.

Definition discounted_row : Game.t :=
  Game.mk (Some 1) (Some "Breath of the Wild") (Some "Adventure")
    (Some "Switch") (Some 45) (Some 1200) (Some 1300).

Definition evening : Moment := mkMoment 1900 [].

Definition clear_updated_at : Assign.t :=
  Assign.mk None None None None None None (Some None).


Definition backdate : Assign.t :=
  Assign.mk None None None None None (Some (Some 0)) None.

Definition backdated_row : Game.t :=
  Game.mk (Some 1) (Some "Breath of the Wild") (Some "Adventure")
    (Some "Switch") (Some 60) (Some 0) (Some 1300).

(** ** The script [debug.py]

    The script only sequences calls into libraries, so it is embedded as
    the tree of those calls; what each call does is given by a handler. *)

Record FakerObject : Type := mkFaker { }.

(** [Engine]: the dialect and the database the URL names. *)
Record Engine : Type := mkEngine {
  dialect : string;
  database : string
}.

(** The class [sessionmaker] builds, and its instances. *)
Record SessionClass : Type := mkSessionClass { bind : Engine }.

Record SessionObject : Type := mkSession { session_bind : Engine }.

Inductive Call : Type -> Type :=
| Import (module : string) : Call unit
| Faker_call : Call FakerObject
| Create_engine (url : string) : Call Engine
| Sessionmaker_call (bind : Engine) : Call SessionClass
| Session_call (cls : SessionClass) : Call SessionObject
| Set_trace : Call unit.

(** Programs: a result, a call followed by the rest, [raise exc], and
    [try: body / except Exception as exc: handler] followed by the
    rest.  The script uses the first two only. *)
Inductive Prog (R : Type) : Type :=
| Ret (r : R)
| Vis (X : Type) (e : Call X) (k : X -> Prog R)
| Throw (exc : Exception)
| Try (body : Prog unit) (handler : Exception -> Prog unit) (k : Prog R).

Arguments Ret {R} r.
Arguments Vis {R X} e k.
Arguments Throw {R} exc.
Arguments Try {R} body handler k.

Fixpoint seq {A B : Type} (p : Prog A) (k : A -> Prog B) : Prog B :=
  match p with
  | Ret a => k a
  | Vis e f => Vis e (fun x => seq (f x) k)
  | Throw exc => Throw exc
  | Try body handler rest => Try body handler (seq rest k)
  end.

Definition trigger {X : Type} (e : Call X) : Prog X := Vis e Ret.

Declare Scope prog_scope.
Delimit Scope prog_scope with prog.
Notation "x <- p ;; k" := (seq p (fun x => k))
  (at level 61, p at next level, right associativity) : prog_scope.
Notation "p ;; k" := (seq p (fun _ => k))
  (at level 61, right associativity) : prog_scope.

(** The names the script uses. *)
Definition import (module : string) : Prog unit := trigger (Import module).
Definition Faker (_ : unit) : Prog FakerObject := trigger Faker_call.
Definition create_engine (url : string) : Prog Engine :=
  trigger (Create_engine url).
Definition sessionmaker (bind : Engine) : Prog SessionClass :=
  trigger (Sessionmaker_call bind).
Definition call (cls : SessionClass) : Prog SessionObject :=
  trigger (Session_call cls).
Definition set_trace (_ : unit) : Prog unit := trigger Set_trace.

(** The module body, run with [__name__] bound by the interpreter. *)
Definition debug_py (__name__ : string) : Prog unit :=
  (import "faker" ;;
   import "random" ;;
   import "sqlalchemy" ;;
   import "sqlalchemy.orm" ;;
   import "app.db" ;;
   fake <- Faker tt ;;
   if __name__ =? "__main__" then
     engine <- create_engine "sqlite:///seed_db.db" ;;
     Session <- sessionmaker engine ;;
     session <- call Session ;;
     import "ipdb" ;;
     set_trace tt
   else Ret tt)%prog%string.

(** ** Running the script *)

(** The process and its surroundings. *)
Record World : Type := mkWorld {
  installed : list string;
  argv : list string;
  environ : list (string * string);
  games : Table
}.

Definition Handler : Type := forall X : Type, Call X -> World -> World * Result X.

Inductive Event : Type :=
| event (X : Type) (e : Call X).

Arguments event {X} e.

Record Run (R : Type) : Type := mkRun {
  trace : list Event;
  final : World;
  result : Result R
}.

Arguments mkRun {R}.
Arguments trace {R}.
Arguments final {R}.
Arguments result {R}.

(** Calls are performed in order; an exception ends the run unless it
    was raised inside a [try], whose handler then runs before the rest. *)
Fixpoint run {R : Type} (h : Handler) (p : Prog R) (w : World) : Run R :=
  match p with
  | Ret r => mkRun [] w (Ok r)
  | Vis e k =>
      match h _ e w with
      | (w', Ok x) =>
          let rest := run h (k x) w' in
          mkRun (event e :: trace rest) (final rest) (result rest)
      | (w', Raise exc) => mkRun [event e] w' (Raise exc)
      end
  | Throw exc => mkRun [] w (Raise exc)
  | Try body handler k =>
      let b := run h body w in
      match result b with
      | Ok _ =>
          let rest := run h k (final b) in
          mkRun (trace b ++ trace rest)%list (final rest) (result rest)
      | Raise exc =>
          let c := run h (handler exc) (final b) in
          match result c with
          | Ok _ =>
              let rest := run h k (final c) in
              mkRun (trace b ++ trace c ++ trace rest)%list (final rest)
                (result rest)
          | Raise exc' =>
              mkRun (trace b ++ trace c)%list (final c) (Raise exc')
          end
      end
  end.

Definition is_set_trace {X : Type} (e : Call X) : bool :=
  match e with
  | Set_trace => true
  | _ => false
  end.

(** Where a run stands when control leaves the script. *)
Inductive Status : Type :=
| Exited
| Uncaught (exc : Exception)
| Breakpoint.

(** The run up to the first breakpoint, where the debugger prompt takes
    over. *)
Fixpoint run_to_breakpoint {R : Type} (h : Handler) (p : Prog R) (w : World)
  : list Event * World * Status :=
  match p with
  | Ret r => ([], w, Exited)
  | Vis e k =>
      if is_set_trace e then ([], w, Breakpoint)
      else
        match h _ e w with
        | (w', Ok x) =>
            let '(tr, w'', s) := run_to_breakpoint h (k x) w' in
            (event e :: tr, w'', s)
        | (w', Raise exc) => ([event e], w', Uncaught exc)
        end
  | Throw exc => ([], w, Uncaught exc)
  | Try body handler k =>
      let '(tr, w1, s) := run_to_breakpoint h body w in
      match s with
      | Exited =>
          let '(tr2, w2, s2) := run_to_breakpoint h k w1 in
          ((tr ++ tr2)%list, w2, s2)
      | Breakpoint => (tr, w1, Breakpoint)
      | Uncaught exc =>
          let '(tr1, w1', s1) := run_to_breakpoint h (handler exc) w1 in
          match s1 with
          | Exited =>
              let '(tr2, w2, s2) := run_to_breakpoint h k w1' in
              ((tr ++ tr1 ++ tr2)%list, w2, s2)
          | _ => ((tr ++ tr1)%list, w1', s1)
          end
      end
  end.

(** *** The libraries *)

Fixpoint split_at (sep s : string) : option (string * string) :=
  if prefix sep s then Some (EmptyString,
             substring (String.length sep) (String.length s) s)
  else match s with
       | EmptyString => None
       | String ch rest =>
           match split_at sep rest with
           | Some (a, b) => Some (String ch a, b)
           | None => None
           end
       end.

Definition known_dialects : list string :=
  ["sqlite"; "postgresql"; "mysql"; "oracle"; "mssql"].

(** [dialect+driver://host/database], as far as the script's URL needs:
    the dialect is what precedes [+] or [://]. *)
Definition parse_url (url : string) : Result Engine :=
  match split_at "://" url with
  | None => Raise ArgumentError
  | Some (name, rest) =>
      let d := match split_at "+" name with
               | Some (d, _) => d
               | None => name
               end in
      if existsb (String.eqb d) known_dialects
      then Ok (mkEngine d match split_at "/" rest with
                          | Some (_, db) => db
                          | None => EmptyString
                          end)
      else Raise (NoSuchModuleError d)
  end.

(** What the debugger prompt does is up to whoever types at it: it may
    change the world, and it ends by continuing or by raising. *)
Definition Debugger : Type := World -> World * Result unit.

(** Whether [import module] finds the module. *)
Definition importable (w : World) (module : string) : bool :=
  existsb (String.eqb module) (installed w).

Arguments importable : simpl never.

(** Creating the engine, the session class and the session sends no
    statement to the database: none of them touches the table. *)
Definition libraries (debugger : Debugger) : Handler :=
  fun X e w =>
    match e in Call X return World * Result X with
    | Import module =>
        if importable w module then (w, Ok tt)
        else (w, Raise (ModuleNotFoundError module))
    | Faker_call => (w, Ok mkFaker)
    | Create_engine url => (w, parse_url url)
    | Sessionmaker_call b => (w, Ok (mkSessionClass b))
    | Session_call cls => (w, Ok (mkSession (bind cls)))
    | Set_trace => debugger w
    end.

(** A debugger session in which the user continues at once. *)
Definition continue_ : Debugger := fun w => (w, Ok tt).

(** A debugger session in which the user quits. *)
Definition quit : Debugger := fun w => (w, Raise BdbQuit).

Definition requirements : list string :=
  ["faker"; "random"; "sqlalchemy"; "sqlalchemy.orm"; "app.db"; "ipdb"].

Definition laptop : World := mkWorld requirements ["debug.py"] [] [].

(** The connection strings a run passed to [create_engine]. *)
Definition engine_urls (tr : list Event) : list string :=
  flat_map (fun ev => match ev with
                      | event (Create_engine url) => [url]
                      | event _ => []
                      end) tr.

(** Some call the program performs raises [exc]. *)
Inductive raises (h : Handler) {R : Type}
  : Prog R -> World -> Exception -> Prop :=
| raises_now X (e : Call X) (k : X -> Prog R) w w' exc :
    h X e w = (w', Raise exc) -> raises h (Vis e k) w exc
| raises_later X (e : Call X) (k : X -> Prog R) w w' x exc :
    h X e w = (w', Ok x) -> raises h (k x) w' exc ->
    raises h (Vis e k) w exc.

(** A debugger session that does not write to the games table. *)
Definition reads_only (debugger : Debugger) : Prop :=
  forall w, games (fst (debugger w)) = games w.

(** A machine on which [ipdb] was never installed. *)
Definition bare : World :=
  mkWorld ["faker"; "random"; "sqlalchemy"; "sqlalchemy.orm"; "app.db"]
    ["debug.py"] [] seeded.

(** The same script started with other arguments and another environment. *)
Definition server : World :=
  mkWorld requirements ["debug.py"; "--database"; "postgresql://db/games"]
    [("DATABASE_URL", "postgresql://db/games")] seeded.

(** The calls of a run as the main program, up to the breakpoint. *)
Definition main_trace : list Event :=
  [event (Import "faker"); event (Import "random");
   event (Import "sqlalchemy"); event (Import "sqlalchemy.orm");
   event (Import "app.db"); event Faker_call;
   event (Create_engine "sqlite:///seed_db.db");
   event (Sessionmaker_call (mkEngine "sqlite" "seed_db.db"));
   event (Session_call (mkSessionClass (mkEngine "sqlite" "seed_db.db")));
   event (Import "ipdb")].


(** Whether a run reached [ipdb.set_trace()]. *)
Definition hits_breakpoint (tr : list Event) : bool :=
  existsb (fun ev => match ev with event e => is_set_trace e end) tr.

(** Successive flushes of the object loaded under [pk], each at its own
    moment. *)
Fixpoint flushes (pk : Z) (l : list (Moment * Assign.t)) (t : Table)
  : Result Table :=
  match l with
  | [] => Ok t
  | (m, a) :: rest => (t' <- update m pk a t ;; flushes pk rest t')%result
  end.

(** Whether a character occurs in a string. *)
Fixpoint occurs (ch : ascii) (s : string) : bool :=
  match s with
  | EmptyString => false
  | String x rest => Ascii.eqb x ch || occurs ch rest
  end.

(** A table of two records, and what the discount at [evening] makes of
    it. *)
Definition tetris_row : Game.t :=
  Game.mk (Some 2) (Some "Tetris") (Some "Puzzle") (Some "Game Boy")
    (Some 60) (Some 1300) None.

Definition shelf : Table := [zelda_row; tetris_row].

Definition discounted_shelf : Table :=
  [Game.mk (Some 1) (Some "Breath of the Wild") (Some "Adventure")
     (Some "Switch") (Some 45) (Some 1200) (Some 1900);
   tetris_row].

(** The engines a run passed to [sessionmaker], and the session classes
    it instantiated. *)
Definition sessionmaker_binds (tr : list Event) : list Engine :=
  flat_map (fun ev => match ev with
                      | event (Sessionmaker_call b) => [b]
                      | event _ => []
                      end) tr.

Definition session_classes (tr : list Event) : list SessionClass :=
  flat_map (fun ev => match ev with
                      | event (Session_call cls) => [cls]
                      | event _ => []
                      end) tr.

(** Moving the first record of the shelf to a free id. *)
Definition renumber : Assign.t :=
  Assign.mk (Some (Some 7)) None None None None None None.

Definition renumbered_shelf : Table :=
  [Game.mk (Some 7) (Some "Breath of the Wild") (Some "Adventure")
     (Some "Switch") (Some 60) (Some 1200) (Some 1900);
   tetris_row].

(** A record that comes with an id of its own, and the row it becomes when
    inserted at [later]. *)
Definition numbered : Game.t :=
  Game.mk (Some 7) (Some "Tetris") (Some "Puzzle") (Some "Game Boy")
    (Some 60) None None.

Definition numbered_row : Game.t :=
  Game.mk (Some 7) (Some "Tetris") (Some "Puzzle") (Some "Game Boy")
    (Some 60) (Some 1300) None.



(** A program that is a plain sequence of calls: it raises nothing of its
    own and has no [try]. *)
Inductive plain : forall {R : Type}, Prog R -> Prop :=
| plain_Ret (R : Type) (r : R) : plain (Ret r)
| plain_Vis (R X : Type) (e : Call X) (k : X -> Prog R) :
    (forall x, plain (k x)) -> plain (Vis e k).

(** Libraries in which opening the session fails because the database
    cannot be reached. *)
Definition offline : Handler :=
  fun X e w =>
    match e in Call X return World * Result X with
    | Import module => libraries continue_ unit (Import module) w
    | Faker_call => libraries continue_ FakerObject Faker_call w
    | Create_engine url => libraries continue_ Engine (Create_engine url) w
    | Sessionmaker_call b =>
        libraries continue_ SessionClass (Sessionmaker_call b) w
    | Session_call cls => (w, Raise OperationalError)
    | Set_trace => libraries continue_ unit Set_trace w
    end.

(** A program that does handle the failure of an import. *)
Definition guarded_import (module : string) : Prog unit :=
  Try (import module) (fun _ => Ret tt) (Ret tt).

(** * Properties *)

(** ** [Game.__repr__] *)

Lemma append_assoc (a b c : string) : ((a ++ b) ++ c = a ++ (b ++ c))%string.
Proof.
  induction a as [|ch a IH]; simpl.
  - reflexivity.
  - now rewrite IH.
Qed.

Example repr_zelda :
  Game.__repr__ (Game.mk (Some 7) (Some "Zelda") (Some "Adventure")
                   (Some "Switch") (Some 60) (Some 1200) None)
  = "Game(id=7, title=" ++ dq ++ "Zelda" ++ dq ++ ", platform=" ++ dq
      ++ "Switch)" ++ dq.
Proof. reflexivity. Qed.

Example repr_unsaved : Game.__repr__ zelda
  = "Game(id=None, title=" ++ dq ++ "Breath of the Wild" ++ dq
      ++ ", platform=" ++ dq ++ "Switch)" ++ dq.
Proof. reflexivity. Qed.

(** C10. [repr] of a game is
    [Game(id=<id>, title="<title>", platform="<platform>)"]: it prints the
    id, the title and the platform only, whatever the genre, the price and
    the two timestamps are, and the text after the platform value is the
    closing parenthesis followed by the double quote. *)
Theorem repr_prints_id_title_platform (g : Game.t) :
  Game.__repr__ g
  = "Game(id=" ++ str (Game.id g) ++ ", title=" ++ dq ++ str (Game.title g)
      ++ dq ++ ", platform=" ++ dq ++ str (Game.platform g) ++ ")" ++ dq
  /\ (forall genre price created_at updated_at,
        Game.__repr__ (Game.mk (Game.id g) (Game.title g) genre
                         (Game.platform g) price created_at updated_at)
        = Game.__repr__ g)
  /\ (exists front,
        Game.__repr__ g = front ++ dq ++ str (Game.platform g) ++ ")" ++ dq).
Proof.
  assert (flat : Game.__repr__ g
    = "Game(id=" ++ str (Game.id g) ++ ", title=" ++ dq
        ++ str (Game.title g) ++ dq ++ ", platform=" ++ dq
        ++ str (Game.platform g) ++ ")" ++ dq).
  { unfold Game.__repr__. now rewrite !append_assoc. }
  split; [exact flat|split].
  - intros. reflexivity.
  - exists ("Game(id=" ++ str (Game.id g) ++ ", title=" ++ dq
              ++ str (Game.title g) ++ dq ++ ", platform=").
    rewrite flat. now rewrite !append_assoc.
Qed.

(** ** The storage layer: basic facts *)

Lemma and_then_ok {A B : Type} (c : Result A) (k : A -> Result B) (b : B) :
  and_then c k = Ok b -> exists a, c = Ok a /\ k a = Ok b.
Proof.
  destruct c as [a|e]; simpl; intros H.
  - now exists a.
  - discriminate.
Qed.

(** Splits a successful chain of bound computations into its steps. *)
Ltac chain H :=
  repeat match type of H with
         | and_then _ _ = Ok _ =>
             let x := fresh "x" in
             let Hx := fresh "Hx" in
             apply and_then_ok in H; destruct H as [x [Hx H]]
         end.

Lemma py_eqb_eq (ty : SqlType) (x y : py ty) : py_eqb ty x y = true <-> x = y.
Proof.
  destruct ty; simpl.
  - apply Z.eqb_eq.
  - apply String.eqb_eq.
  - apply Z.eqb_eq.
Qed.

Lemma optional_eqb_eq (ty : SqlType) (a b : option (py ty)) :
  optional_eqb ty a b = true <-> a = b.
Proof.
  destruct a as [x|], b as [y|]; simpl; try easy.
  rewrite py_eqb_eq. split; congruence.
Qed.

Lemma bind_param_ok (ty : SqlType) (v p : option (py ty)) :
  bind_param ty v = Ok p ->
  p = v /\ (forall x, v = Some x -> fits ty x = true).
Proof.
  unfold bind_param. destruct v as [x|].
  - destruct (fits ty x) eqn:F; [|discriminate].
    intros [= <-]. split; [reflexivity|]. now intros y [= <-].
  - intros [= <-]. split; [reflexivity|discriminate].
Qed.

Lemma is_pk_id (pk : Z) (r : Game.t) :
  is_pk pk r = true <-> Game.id r = Some pk.
Proof.
  unfold is_pk. destruct (Game.id r) as [i|].
  - rewrite Z.eqb_eq. split; congruence.
  - split; discriminate.
Qed.

Lemma has_pk_In (pk : Z) (t : Table) :
  has_pk pk t = true <-> In (Some pk) (map Game.id t).
Proof.
  unfold has_pk. rewrite existsb_exists, in_map_iff.
  split; intros [r [H1 H2]]; exists r.
  - apply is_pk_id in H2. now split.
  - split; [assumption|]. now apply is_pk_id.
Qed.


Lemma get_some (pk : Z) (t : Table) (r : Game.t) :
  get pk t = Some r -> In r t /\ Game.id r = Some pk.
Proof.
  unfold get. intros H. apply find_some in H.
  destruct H as [H1 H2]. split; [assumption|]. now apply is_pk_id.
Qed.

Lemma get_app_fresh (pk : Z) (t l : Table) :
  has_pk pk t = false -> get pk (t ++ l)%list = get pk l.
Proof.
  unfold get, has_pk. induction t as [|x t IH]; simpl; intros H.
  - reflexivity.
  - apply orb_false_iff in H. destruct H as [Hx Ht].
    rewrite Hx. now apply IH.
Qed.

Lemma max_rowid_bounds (pk : Z) (t : Table) :
  has_pk pk t = true -> exists v, max_rowid t = Some v /\ pk <= v.
Proof.
  unfold has_pk. induction t as [|x t IH]; simpl; [discriminate|].
  intros H. apply orb_true_iff in H.
  destruct H as [H|H].
  - apply is_pk_id in H. rewrite H.
    destruct (max_rowid t) as [v|]; eexists; split; try reflexivity; lia.
  - destruct (IH H) as [v [Hv Hle]]. rewrite Hv.
    destruct (Game.id x) as [i|]; eexists; split; try reflexivity; lia.
Qed.

(** A rowid the storage layer allocates is not in use. *)
Lemma new_rowid_fresh (m : Moment) (t : Table) (i : Z) :
  new_rowid m t = Ok i -> has_pk i t = false.
Proof.
  unfold new_rowid. intros H.
  destruct (has_pk i t) eqn:E; [|reflexivity].
  destruct (max_rowid_bounds _ _ E) as [v [Hv Hle]].
  rewrite Hv in H. destruct (Z.ltb_spec v MAX_ROWID) as [Hlt|Hge].
  - injection H as <-. lia.
  - destruct (find _ _) as [c|] eqn:F; [|discriminate].
    injection H as <-. apply find_some in F.
    destruct F as [_ F]. rewrite E in F. discriminate.
Qed.

Lemma new_rowid_succeeds (m : Moment) (t : Table) :
  has_room t -> exists i, new_rowid m t = Ok i.
Proof.
  unfold has_room, new_rowid. destruct (max_rowid t) as [v|]; intros H.
  - destruct (Z.ltb_spec v MAX_ROWID); [|lia]. now eexists.
  - now eexists.
Qed.

Lemma insert_value_ok {ty : SqlType} (col : Column ty) (m : Moment)
  (v p : option (py ty)) :
  insert_value col m v = Ok p ->
  p = match v with
      | Some x => Some x
      | None => option_map (fun f => f (clock m)) (server_default col)
      end
  /\ (forall x, v = Some x -> fits ty x = true).
Proof.
  unfold insert_value. intros H. chain H.
  apply bind_param_ok in Hx. destruct Hx as [-> F].
  split; [|exact F].
  destruct v; now injection H as <-.
Qed.

Lemma fits_Integer (z : Z) :
  fits Integer z = true <-> MIN_INT64 <= z <= MAX_ROWID.
Proof. simpl. rewrite andb_true_iff, !Z.leb_le. tauto. Qed.

(** What a successful INSERT stored. *)
Lemma insert_ok (m : Moment) (g : Game.t) (t : Table) (r : Game.t)
  (t' : Table) :
  insert m g t = Ok (r, t') ->
  exists rowid,
    r = Game.mk (Some rowid) (Game.title g) (Game.genre g) (Game.platform g)
          (Game.price g)
          (match Game.created_at g with
           | Some x => Some x
           | None => Some (clock m)
           end)
          (Game.updated_at g)
    /\ t' = (t ++ [r])%list
    /\ has_pk rowid t = false
    /\ match Game.id g with
       | Some i => rowid = i
       | None => new_rowid m t = Ok rowid
       end
    /\ (forall v, Game.price g = Some v -> MIN_INT64 <= v <= MAX_ROWID).
Proof.
  unfold insert. intros H. chain H.
  apply bind_param_ok in Hx. destruct Hx as [-> _].
  apply insert_value_ok in Hx0, Hx1, Hx2, Hx3, Hx4, Hx5.
  destruct Hx0 as [-> _], Hx1 as [-> _], Hx2 as [-> _], Hx3 as [-> Fp],
    Hx4 as [-> _], Hx5 as [-> _].
  simpl in H. injection H as <- <-.
  exists x6. split; [|split; [|split; [|split]]].
  - destruct g as [i ti ge pl pr ca ua]; simpl.
    destruct ti, ge, pl, pr, ca, ua; reflexivity.
  - reflexivity.
  - destruct (Game.id g) as [i|].
    + destruct (has_pk i t) eqn:E; [discriminate|]. now injection Hx6 as <-.
    + now apply new_rowid_fresh in Hx6.
  - destruct (Game.id g) as [i|]; [|exact Hx6].
    destruct (has_pk i t); [discriminate|]. now injection Hx6.
  - intros v Hv. apply fits_Integer. now apply Fp.
Qed.

(** A pending object without an id, whose price fits, is always stored
    while the table has room. *)
Lemma insert_succeeds (m : Moment) (g : Game.t) (t : Table) :
  Game.id g = None ->
  (forall v, Game.price g = Some v -> MIN_INT64 <= v <= MAX_ROWID) ->
  has_room t ->
  exists r t', insert m g t = Ok (r, t').
Proof.
  intros Hid Hprice Hroom.
  destruct (new_rowid_succeeds m t Hroom) as [i Hi].
  unfold insert. rewrite Hid. simpl. rewrite Hi.
  unfold insert_value.
  assert (P : bind_param Integer (Game.price g) = Ok (Game.price g)).
  { unfold bind_param. destruct (Game.price g) as [v|]; [|reflexivity].
    destruct (fits Integer v) eqn:F; [reflexivity|].
    specialize (Hprice v eq_refl). apply fits_Integer in Hprice. congruence. }
  rewrite P.
  destruct (Game.title g), (Game.genre g), (Game.platform g),
    (Game.price g), (Game.created_at g), (Game.updated_at g);
    simpl; eexists; eexists; reflexivity.
Qed.

(** The row just inserted is the one its id retrieves. *)
Lemma get_inserted (m : Moment) (g : Game.t) (t : Table) (r : Game.t)
  (t' : Table) :
  insert m g t = Ok (r, t') ->
  exists rowid, Game.id r = Some rowid /\ get rowid t' = Some r.
Proof.
  intros H. destruct (insert_ok _ _ _ _ _ H) as [i [Hr [Ht [Hf _]]]].
  exists i. split; [now rewrite Hr|].
  rewrite Ht, (get_app_fresh _ _ _ Hf). unfold get. simpl.
  replace (is_pk i r) with true; [reflexivity|].
  symmetry. apply is_pk_id. now rewrite Hr.
Qed.

Lemma update_value_plain {ty : SqlType} (expired : bool) (col : Column ty)
  (m : Moment) (a : option (option (py ty))) (cur p : option (py ty)) :
  onupdate col = None ->
  update_value expired col m a cur = Ok p ->
  p = assigned a cur
  /\ (changed expired ty a cur = true ->
      forall x, p = Some x -> fits ty x = true).
Proof.
  unfold update_value, changed. intros ->. destruct a as [v|]; simpl.
  - destruct (expired || negb (optional_eqb ty v cur)) eqn:E.
    + intros H. apply bind_param_ok in H. destruct H as [-> F].
      split; [reflexivity|]. intros _ x Hx. now apply F.
    + apply orb_false_iff in E. destruct E as [_ E].
      apply negb_false_iff, optional_eqb_eq in E. subst cur.
      intros [= <-]. split; [reflexivity|discriminate].
  - intros [= <-]. split; [reflexivity|discriminate].
Qed.

Lemma update_value_onupdate {ty : SqlType} (expired : bool) (col : Column ty)
  (m : Moment) (f : SqlFunc ty) (a : option (option (py ty)))
  (cur p : option (py ty)) :
  onupdate col = Some f ->
  update_value expired col m a cur = Ok p ->
  p = if changed expired ty a cur then assigned a cur
      else Some (f (clock m)).
Proof.
  unfold update_value, changed. intros ->. destruct a as [v|]; simpl.
  - destruct (expired || negb (optional_eqb ty v cur)) eqn:E; simpl.
    + intros H. apply bind_param_ok in H. now destruct H as [-> _].
    + now intros [= <-].
  - now intros [= <-].
Qed.

(** What a flush did: nothing without anything to set, else one UPDATE
    that rewrote the rows under [pk]. *)
Lemma flush_ok (expired : bool) (m : Moment) (pk : Z) (a : Assign.t)
  (t t' : Table) :
  flush expired m pk a t = Ok t' ->
  exists r,
    get pk t = Some r
    /\ ((dirty expired a r = false /\ t' = t)
        \/ (dirty expired a r = true
            /\ exists rowid,
                assigned (Assign.id a) (Game.id r) = Some rowid
                /\ (rowid = pk \/ has_pk rowid t = false)
                /\ t' = map (replace_row pk
                               (updated_row expired m a r rowid)) t)).
Proof.
  unfold flush. destruct (get pk t) as [r|] eqn:G; [|discriminate].
  intros H. exists r. split; [reflexivity|].
  destruct (dirty expired a r) eqn:D; simpl in H.
  - right. split; [reflexivity|]. chain H.
    apply (update_value_plain false Game.c.id m _ _ _ eq_refl) in Hx.
    apply (update_value_plain expired Game.c.title m _ _ _ eq_refl) in Hx0.
    apply (update_value_plain expired Game.c.genre m _ _ _ eq_refl) in Hx1.
    apply (update_value_plain expired Game.c.platform m _ _ _ eq_refl)
      in Hx2.
    apply (update_value_plain expired Game.c.price m _ _ _ eq_refl) in Hx3.
    apply (update_value_plain expired Game.c.created_at m _ _ _ eq_refl)
      in Hx4.
    apply (update_value_onupdate expired Game.c.updated_at m func.now
             _ _ _ eq_refl) in Hx5.
    destruct Hx as [-> _], Hx0 as [-> _], Hx1 as [-> _], Hx2 as [-> _],
      Hx3 as [-> _], Hx4 as [-> _].
    subst x5.
    match type of H with
    | match ?e with _ => _ end = _ => destruct e as [i|] eqn:I
    end; [|discriminate H].
    destruct (negb (i =? pk) && has_pk i t) eqn:C; [discriminate H|].
    injection H as <-.
    exists i. split; [exact I|]. split; [|reflexivity].
    apply andb_false_iff in C. destruct C as [C|C].
    + left. apply negb_false_iff in C. now apply Z.eqb_eq.
    + now right.
  - left. split; [reflexivity|]. now injection H.
Qed.

Lemma update_ok (m : Moment) (pk : Z) (a : Assign.t) (t t' : Table) :
  update m pk a t = Ok t' ->
  exists r,
    get pk t = Some r
    /\ ((dirty false a r = false /\ t' = t)
        \/ (dirty false a r = true
            /\ exists rowid,
                assigned (Assign.id a) (Game.id r) = Some rowid
                /\ (rowid = pk \/ has_pk rowid t = false)
                /\ t' = map (replace_row pk
                               (updated_row false m a r rowid)) t)).
Proof. apply flush_ok. Qed.

(** After an UPDATE the rewritten row is the one its id retrieves. *)
Lemma get_replaced (pk rowid : Z) (r row : Game.t) (t : Table) :
  get pk t = Some r ->
  Game.id row = Some rowid ->
  rowid = pk \/ has_pk rowid t = false ->
  get rowid (map (replace_row pk row) t) = Some row.
Proof.
  unfold get, has_pk, replace_row. intros G Hrow.
  assert (R : is_pk rowid row = true) by now apply is_pk_id.
  induction t as [|x t IH]; simpl in *; [discriminate|].
  intros F. destruct (is_pk pk x) eqn:P.
  - simpl. now rewrite R.
  - simpl. replace (is_pk rowid x) with false.
    + apply IH; [exact G|]. destruct F as [F|F]; [now left|right].
      apply orb_false_iff in F. tauto.
    + destruct F as [->|F]; [now rewrite P|].
      apply orb_false_iff in F. now destruct F as [-> _].
Qed.

Lemma get_flushed (expired : bool) (m : Moment) (pk : Z) (a : Assign.t)
  (t t' : Table) (r : Game.t) :
  get pk t = Some r ->
  dirty expired a r = true ->
  flush expired m pk a t = Ok t' ->
  exists rowid,
    assigned (Assign.id a) (Game.id r) = Some rowid
    /\ get rowid t' = Some (updated_row expired m a r rowid).
Proof.
  intros G D H. destruct (flush_ok _ _ _ _ _ _ H) as [r' [G' C]].
  rewrite G in G'. injection G' as <-.
  destruct C as [[D' _]|[_ [rowid [I [F ->]]]]]; [congruence|].
  exists rowid. split; [exact I|].
  now apply get_replaced with (r := r).
Qed.

Lemma get_updated (m : Moment) (pk : Z) (a : Assign.t) (t t' : Table)
  (r : Game.t) :
  get pk t = Some r ->
  dirty false a r = true ->
  update m pk a t = Ok t' ->
  exists rowid,
    assigned (Assign.id a) (Game.id r) = Some rowid
    /\ get rowid t' = Some (updated_row false m a r rowid).
Proof. apply get_flushed. Qed.

(** ** Primary keys stay distinct *)


Section Replace.

Variables (pk rowid : Z) (row : Game.t).
Hypothesis row_id : Game.id row = Some rowid.





(** An UPDATE that leaves the primary key alone leaves every id alone. *)
Lemma replace_same_ids (t : Table) :
  rowid = pk -> map Game.id (map (replace_row pk row) t) = map Game.id t.
Proof.
  intros E. induction t as [|x t IH]; simpl; [reflexivity|].
  rewrite IH. f_equal. unfold replace_row. destruct (is_pk pk x) eqn:P; [|easy].
  apply is_pk_id in P. congruence.
Qed.

End Replace.




(** ** The flushes on sample data *)

Example insert_zelda : insert noon zelda [] = Ok (zelda_row, seeded).
Proof. reflexivity. Qed.

Example update_discount :
  update later 1 discount seeded = Ok [discounted_row].
Proof. reflexivity. Qed.

Example insert_duplicate_id :
  insert later zelda_row seeded = Raise IntegrityError.
Proof. reflexivity. Qed.

Example reachable_seeded : reachable seeded.
Proof. exact (reachable_insert _ _ _ _ _ reachable_empty insert_zelda). Qed.

Example reachable_discounted : reachable [discounted_row].
Proof.
  exact (reachable_flush false _ _ _ _ _ reachable_seeded update_discount).
Qed.

Lemma changed_false_assigned (expired : bool) (ty : SqlType)
  (a : option (option (py ty))) (cur : option (py ty)) :
  changed expired ty a cur = false -> assigned a cur = cur.
Proof.
  unfold changed, assigned. destruct a as [v|]; [|reflexivity].
  intros H. apply orb_false_iff in H. destruct H as [_ H].
  apply negb_false_iff in H. now apply optional_eqb_eq in H.
Qed.

Lemma update_value_succeeds {ty : SqlType} (expired : bool) (col : Column ty)
  (m : Moment) (a : option (option (py ty))) (cur : option (py ty)) :
  (forall x, a = Some (Some x) -> fits ty x = true) ->
  exists p, update_value expired col m a cur = Ok p.
Proof.
  intros F. unfold update_value. destruct a as [v|]; [|now eexists].
  destruct (expired || negb (optional_eqb ty v cur)); [|now eexists].
  unfold bind_param. destruct v as [x|]; [|now eexists].
  rewrite (F x eq_refl). now eexists.
Qed.

(** A flush that does not touch the primary key, and assigns a price only
    if it fits, succeeds on every row that exists. *)
Lemma flush_succeeds (expired : bool) (m : Moment) (pk : Z) (a : Assign.t)
  (t : Table) (r : Game.t) :
  get pk t = Some r ->
  Assign.id a = None ->
  (forall v, Assign.price a = Some (Some v) -> MIN_INT64 <= v <= MAX_ROWID) ->
  exists t', flush expired m pk a t = Ok t'.
Proof.
  intros G I P. unfold flush. rewrite G.
  destruct (dirty expired a r); simpl; [|now eexists].
  rewrite I. simpl.
  destruct (get_some _ _ _ G) as [_ Hid]. rewrite Hid. simpl.
  destruct (update_value_succeeds expired Game.c.title m (Assign.title a)
              (Game.title r)) as [x1 ->]; [reflexivity|].
  destruct (update_value_succeeds expired Game.c.genre m (Assign.genre a)
              (Game.genre r)) as [x2 ->]; [reflexivity|].
  destruct (update_value_succeeds expired Game.c.platform m
              (Assign.platform a) (Game.platform r)) as [x3 ->];
    [reflexivity|].
  destruct (update_value_succeeds expired Game.c.price m (Assign.price a)
              (Game.price r)) as [x4 ->].
  { intros v Hv. apply fits_Integer. now apply P. }
  destruct (update_value_succeeds expired Game.c.created_at m
              (Assign.created_at a) (Game.created_at r)) as [x5 ->];
    [reflexivity|].
  destruct (update_value_succeeds expired Game.c.updated_at m
              (Assign.updated_at a) (Game.updated_at r)) as [x6 ->];
    [reflexivity|].
  simpl. rewrite Z.eqb_refl. simpl. now eexists.
Qed.

Lemma update_succeeds (m : Moment) (pk : Z) (a : Assign.t) (t : Table)
  (r : Game.t) :
  get pk t = Some r ->
  Assign.id a = None ->
  (forall v, Assign.price a = Some (Some v) -> MIN_INT64 <= v <= MAX_ROWID) ->
  exists t', update m pk a t = Ok t'.
Proof. apply flush_succeeds. Qed.

(** An integer that does not fit makes the INSERT raise. *)
Lemma insert_overflow (m : Moment) (g : Game.t) (t : Table) (v : Z) :
  Game.price g = Some v ->
  ~ (MIN_INT64 <= v <= MAX_ROWID) ->
  insert m g t = Raise OverflowError.
Proof.
  intros P F. unfold insert.
  destruct (bind_param Integer (Game.id g)) as [i|e] eqn:B; simpl.
  - unfold insert_value at 1 2 3.
    destruct (Game.title g), (Game.genre g), (Game.platform g); simpl;
      unfold insert_value at 1; rewrite P; simpl;
      destruct ((MIN_INT64 <=? v) && (v <=? MAX_ROWID)) eqn:E;
      try reflexivity;
      exfalso; apply F; now apply fits_Integer.
  - unfold bind_param in B. destruct (Game.id g) as [i|]; [|discriminate].
    destruct (fits Integer i); [discriminate|]. now injection B as <-.
Qed.

(** ** The claims about stored records *)

(** C3, as stated, fails: the id of an inserted record is not always
    assigned by the storage layer.  A record that comes with an id is
    stored under that id, here 7, where the storage layer would have
    allocated 2. *)
Lemma explicit_id_is_kept :
  Game.id numbered = Some 7
  /\ insert later numbered seeded
     = Ok (numbered_row, (seeded ++ [numbered_row])%list)
  /\ Game.id numbered_row = Some 7
  /\ new_rowid later seeded = Ok 2.
Proof. repeat split. Qed.



(** C4, as stated, fails: the price 2^63 is an integer, and the insert of
    a record carrying it raises instead of storing it. *)
Lemma price_beyond_int64_is_rejected :
  insert noon (priced (2 ^ 63)) [] = Raise OverflowError
  /\ ~ (exists r t', insert noon (priced (2 ^ 63)) [] = Ok (r, t')).
Proof.
  split; [reflexivity|]. intros [r [t' H]]. discriminate H.
Qed.

(** C4, amended. For every integer [v] of the signed 64-bit range, a
    record with price [v] and no id is stored while the table has room;
    every insert that succeeds stores the price unchanged in the row its
    id retrieves; an insert with a price outside the range raises
    [OverflowError]. *)
Theorem price_round_trip (m : Moment) (g : Game.t) (t : Table) (v : Z) :
  Game.price g = Some v ->
  (MIN_INT64 <= v <= MAX_ROWID -> Game.id g = None -> has_room t ->
   exists r t', insert m g t = Ok (r, t'))
  /\ (forall r t', insert m g t = Ok (r, t') ->
      MIN_INT64 <= v <= MAX_ROWID
      /\ exists i r', Game.id r = Some i /\ get i t' = Some r'
                      /\ Game.price r' = Some v)
  /\ (~ (MIN_INT64 <= v <= MAX_ROWID) -> insert m g t = Raise OverflowError).
Proof.
  intros P. split; [|split].
  - intros F I Hroom. apply insert_succeeds; try assumption.
    intros v' Hv'. congruence.
  - intros r t' H.
    destruct (insert_ok _ _ _ _ _ H) as [i [Hr [_ [_ [_ F]]]]].
    split; [now apply F|].
    destruct (get_inserted _ _ _ _ _ H) as [j [Hj Gj]].
    exists j, r. split; [exact Hj|]. split; [exact Gj|].
    rewrite Hr. exact P.
  - intros F. now apply insert_overflow with (v := v).
Qed.

Lemma price_round_trip_witness :
  (exists r t', insert noon (priced 60) seeded = Ok (r, t'))
  /\ (exists i r', Game.id (Game.mk (Some 2) (Some "Tetris") (Some "Puzzle")
                              (Some "Game Boy") (Some 60) (Some 1200) None)
                   = Some i
                   /\ get i (seeded ++ [Game.mk (Some 2) (Some "Tetris")
                                          (Some "Puzzle") (Some "Game Boy")
                                          (Some 60) (Some 1200) None])%list
                      = Some r'
                   /\ Game.price r' = Some 60).
Proof.
  destruct (price_round_trip noon (priced 60) seeded 60 eq_refl)
    as [S [R _]].
  split.
  - apply S; [unfold MIN_INT64, MAX_ROWID; lia|reflexivity|].
    unfold has_room; simpl; unfold MAX_ROWID; lia.
  - exact (proj2 (R _ _ eq_refl)).
Defined.




(** C2, as stated, fails: a later update may assign [created_at] itself,
    and the UPDATE then overwrites the value set at insertion. *)
Lemma created_at_changed_by_assignment :
  insert noon zelda [] = Ok (zelda_row, seeded)
  /\ Game.created_at zelda_row = Some 1200
  /\ update later 1 backdate seeded = Ok [backdated_row]
  /\ get 1 [backdated_row] = Some backdated_row
  /\ Game.created_at backdated_row = Some 0.
Proof. repeat split. Qed.

(** C2, amended. Every record has a non-null [created_at] immediately
    after insertion; when the inserting code leaves it unset, the value
    is the database time of the INSERT.  A later update that does not
    itself assign [created_at] leaves it as it was: the storage layer
    sets it at insertion only. *)
Theorem created_at_set_at_insertion (m : Moment) :
  (forall g t r t',
      insert m g t = Ok (r, t') ->
      Game.created_at r <> None
      /\ (Game.created_at g = None -> Game.created_at r = Some (clock m)))
  /\ (forall pk a t t' r,
         get pk t = Some r ->
         Assign.created_at a = None ->
         update m pk a t = Ok t' ->
         exists rowid r',
           assigned (Assign.id a) (Game.id r) = Some rowid
           /\ get rowid t' = Some r'
           /\ Game.created_at r' = Game.created_at r).
Proof.
  split.
  - intros g t r t' H.
    destruct (insert_ok _ _ _ _ _ H) as [i [-> _]]. simpl.
    destruct (Game.created_at g); split; congruence.
  - intros pk a t t' r G C H.
    destruct (dirty false a r) eqn:D.
    + destruct (get_updated _ _ _ _ _ _ G D H) as [rowid [I Gr]].
      exists rowid, (updated_row false m a r rowid).
      split; [exact I|]. split; [exact Gr|].
      unfold updated_row. simpl. now rewrite C.
    + destruct (update_ok _ _ _ _ _ H) as [r0 [G0 K]].
      rewrite G in G0. injection G0 as <-.
      destruct K as [[_ ->]|[D' _]]; [|congruence].
      exists pk, r. unfold dirty in D.
      repeat (apply orb_false_iff in D; destruct D as [D ?]).
      split; [|now split].
      exact (eq_trans (changed_false_assigned false Integer _ _ D)
               (proj2 (get_some _ _ _ G))).
Qed.

Lemma created_at_set_at_insertion_witness :
  (Game.created_at zelda_row <> None
   /\ (Game.created_at zelda = None ->
       Game.created_at zelda_row = Some (clock noon)))
  /\ (exists rowid r',
        assigned (Assign.id discount) (Game.id zelda_row) = Some rowid
        /\ get rowid [discounted_row] = Some r'
        /\ Game.created_at r' = Game.created_at zelda_row).
Proof.
  destruct (created_at_set_at_insertion noon) as [A _].
  destruct (created_at_set_at_insertion later) as [_ B].
  split.
  - exact (A zelda [] zelda_row seeded eq_refl).
  - exact (B 1 discount seeded [discounted_row] zelda_row
             eq_refl eq_refl eq_refl).
Defined.

(** ** The script *)

Lemma importable_installed (module : string) (w : World) :
  In module (installed w) -> importable w module = true.
Proof.
  intros H. apply existsb_exists. exists module.
  split; [assumption|apply String.eqb_refl].
Qed.

(** No library call made from the script's code touches the world; only
    the person at the debugger prompt can. *)
Lemma libraries_frame (debugger : Debugger) (X : Type) (e : Call X)
  (w : World) :
  is_set_trace e = false -> fst (libraries debugger X e w) = w.
Proof.
  destruct e; simpl; try reflexivity; try discriminate.
  now destruct (importable _ _).
Qed.

Lemma run_to_breakpoint_frame (debugger : Debugger) {R : Type} (p : Prog R)
  (w : World) :
  snd (fst (run_to_breakpoint (libraries debugger) p w)) = w.
Proof.
  revert w.
  induction p as [R r|R X e k IH|R exc|R body IHb handler IHh k IHk];
    intros w; simpl; try reflexivity.
  - destruct (is_set_trace e) eqn:T; [reflexivity|].
    pose proof (libraries_frame debugger X e w T) as F.
    destruct (libraries debugger X e w) as [w' [x|exc]]; simpl in F;
      subst w'.
    + specialize (IH x w).
      destruct (run_to_breakpoint (libraries debugger) (k x) w)
        as [[tr w''] s]. exact IH.
    + reflexivity.
  - specialize (IHb w).
    destruct (run_to_breakpoint (libraries debugger) body w)
      as [[tr w1] s]. simpl in IHb. subst w1.
    destruct s as [|exc|].
    + specialize (IHk w).
      destruct (run_to_breakpoint (libraries debugger) k w)
        as [[tr2 w2] s2]. exact IHk.
    + specialize (IHh exc w).
      destruct (run_to_breakpoint (libraries debugger) (handler exc) w)
        as [[tr1 w1'] s1]. simpl in IHh. subst w1'.
      destruct s1 as [|exc'|]; try reflexivity.
      specialize (IHk w).
      destruct (run_to_breakpoint (libraries debugger) k w)
        as [[tr2 w2] s2]. exact IHk.
    + reflexivity.
Qed.

Lemma run_frame (debugger : Debugger) {R : Type} (p : Prog R) (w : World) :
  reads_only debugger ->
  games (final (run (libraries debugger) p w)) = games w.
Proof.
  intros D. revert w.
  induction p as [R r|R X e k IH|R exc|R body IHb handler IHh k IHk];
    intros w; simpl; try reflexivity.
  - assert (F : games (fst (libraries debugger X e w)) = games w).
    { destruct (is_set_trace e) eqn:T.
      - destruct e; try discriminate. apply D.
      - now rewrite libraries_frame. }
    destruct (libraries debugger X e w) as [w' [x|exc]]; simpl in *.
    + now rewrite IH.
    + exact F.
  - destruct (result (run (libraries debugger) body w)) as [[]|exc] eqn:E;
      simpl.
    + now rewrite IHk, IHb.
    + destruct (result (run (libraries debugger) (handler exc)
                          (final (run (libraries debugger) body w))))
        as [[]|exc'] eqn:E'; simpl.
      * now rewrite IHk, IHh, IHb.
      * now rewrite IHh, IHb.
Qed.

(** In a plain program an exception raised by a call is the result of the
    run, and the run raises only what one of its calls raised. *)
Lemma run_raises (h : Handler) {R : Type} (p : Prog R) (w : World)
  (exc : Exception) :
  plain p ->
  raises h p w exc <-> result (run h p w) = Raise exc.
Proof.
  intros P. split.
  - clear P.
    induction 1 as [X e k w w' exc H|X e k w w' x exc H _ IH]; simpl;
      rewrite H; simpl; [reflexivity|exact IH].
  - revert w. induction P as [R r|R X e k _ IH]; intros w; simpl;
      [discriminate|].
    destruct (h X e w) as [w' [x|exc']] eqn:H; simpl.
    + intros E. apply raises_later with (w' := w') (x := x); [exact H|].
      now apply IH.
    + intros [= <-]. now apply raises_now with (w' := w').
Qed.

(** When a plain program fails, the call that raised is the last thing it
    did. *)
Lemma run_stops_at_error (h : Handler) {R : Type} (p : Prog R) (w : World)
  (exc : Exception) :
  plain p ->
  result (run h p w) = Raise exc ->
  exists tr X (e : Call X) w0 w1,
    trace (run h p w) = (tr ++ [event e])%list
    /\ h X e w0 = (w1, Raise exc)
    /\ final (run h p w) = w1.
Proof.
  intros P. revert w. induction P as [R r|R X e k _ IH]; intros w; simpl;
    [discriminate|].
  destruct (h X e w) as [w' [x|exc']] eqn:H; simpl.
  - intros E. destruct (IH x w' E) as [tr [Y [e' [w0 [w1 [T [K F]]]]]]].
    exists (event e :: tr), Y, e', w0, w1. rewrite T. now split.
  - intros [= <-]. exists [], X, e, w, w'. now split.
Qed.

Lemma plain_seq {A B : Type} (p : Prog A) (k : A -> Prog B) :
  plain p -> (forall a, plain (k a)) -> plain (seq p k).
Proof.
  intros P K. induction P as [R r|R X e f _ IH]; simpl.
  - apply K.
  - constructor. intros x. now apply IH.
Qed.

Lemma plain_trigger {X : Type} (e : Call X) : plain (trigger e).
Proof. constructor. intros x. constructor. Qed.

Example run_on_laptop :
  run_to_breakpoint (libraries continue_) (debug_py "__main__") laptop
  = (main_trace, laptop, Breakpoint).
Proof. reflexivity. Qed.

Example run_imported :
  run_to_breakpoint (libraries continue_) (debug_py "debug") laptop
  = (firstn 6 main_trace, laptop, Exited).
Proof. reflexivity. Qed.

Example malformed_connection_string :
  parse_url "seed_db.db" = Raise ArgumentError.
Proof. reflexivity. Qed.

(** C6. Run as the main program, with its modules installed, the script
    loads them, creates the engine for its connection string, builds the
    session class and a session, and then stands at the breakpoint: these
    calls and no others, in this order, with the world as it was found,
    so that no record was inserted, and without having exited. *)
Theorem main_halts_at_breakpoint (debugger : Debugger) (w : World) :
  incl requirements (installed w) ->
  run_to_breakpoint (libraries debugger) (debug_py "__main__") w
  = (main_trace, w, Breakpoint).
Proof.
  intros I.
  assert (M : forall module, In module requirements ->
                importable w module = true).
  { intros module H. apply importable_installed. now apply I. }
  unfold debug_py, main_trace. cbn.
  rewrite (M "faker") by (simpl; tauto).
  rewrite (M "random") by (simpl; tauto).
  rewrite (M "sqlalchemy") by (simpl; tauto).
  rewrite (M "sqlalchemy.orm") by (simpl; tauto).
  rewrite (M "app.db") by (simpl; tauto).
  rewrite (M "ipdb") by (simpl; tauto).
  reflexivity.
Qed.

Lemma main_halts_at_breakpoint_witness :
  run_to_breakpoint (libraries quit) (debug_py "__main__") server
  = (main_trace, server, Breakpoint).
Proof.
  apply (main_halts_at_breakpoint quit server).
  intros module H. exact H.
Defined.

(** Case analysis on the outcome of the next call. *)
Ltac next_call h :=
  match goal with
  | |- context [h ?X ?e ?w] => destruct (h X e w) as [? [?|?]]; cbn
  end.

(** C7. A run of the script leaves the games table unchanged.  Whenever
    control leaves the script's own code (at the breakpoint, at exit, or
    with an exception) the world is as it was found; the world at the end
    of the run is that one or the one the debugger session left; so
    unless the person at the prompt writes to the table, the table at the
    end is the table at the start. *)
Theorem script_leaves_games_unchanged (debugger : Debugger)
  (__name__ : string) (w : World) :
  snd (fst (run_to_breakpoint (libraries debugger) (debug_py __name__) w)) = w
  /\ (final (run (libraries debugger) (debug_py __name__) w) = w
      \/ final (run (libraries debugger) (debug_py __name__) w)
         = fst (debugger w))
  /\ (reads_only debugger ->
      games (final (run (libraries debugger) (debug_py __name__) w))
      = games w).
Proof.
  split; [apply run_to_breakpoint_frame|]. split; [|apply run_frame].
  unfold debug_py. cbn.
  destruct (importable w "faker"); cbn; [|now left].
  destruct (importable w "random"); cbn; [|now left].
  destruct (importable w "sqlalchemy"); cbn; [|now left].
  destruct (importable w "sqlalchemy.orm"); cbn; [|now left].
  destruct (importable w "app.db"); cbn; [|now left].
  destruct (__name__ =? "__main__")%string; cbn; [|now left].
  destruct (importable w "ipdb"); cbn; [|now left].
  right. now destruct (debugger w) as [w' [[]|exc]].
Qed.

Lemma script_leaves_games_unchanged_witness :
  games (final (run (libraries continue_) (debug_py "__main__") server))
  = games server.
Proof.
  apply (script_leaves_games_unchanged continue_ "__main__" server).
  intros w. reflexivity.
Defined.

Example debugger_quit :
  result (run (libraries quit) (debug_py "__main__") laptop) = Raise BdbQuit.
Proof. reflexivity. Qed.

Lemma debug_py_plain (__name__ : string) : plain (debug_py __name__).
Proof.
  unfold debug_py.
  do 6 (apply plain_seq; [apply plain_trigger|intros ?]).
  destruct (__name__ =? "__main__")%string; [|constructor].
  do 4 (apply plain_seq; [apply plain_trigger|intros ?]).
  apply plain_trigger.
Qed.

(** With a [try] around it, the failure of a call is not the result of
    the run. *)
Example try_handles :
  result (run (libraries continue_) (guarded_import "ipdb") bare) = Ok tt
  /\ raises (libraries continue_) (import "ipdb") bare
       (ModuleNotFoundError "ipdb").
Proof.
  split; [reflexivity|]. eapply raises_now. reflexivity.
Qed.

(** C8. The script contains no error handling.  It is a plain sequence of
    calls, with no [try] and no [raise] of its own, so it validates
    nothing and handles nothing: whatever the libraries do, an exception
    is the result of the run exactly when one of the calls the script
    makes raised it, be it a module that is missing, a connection that
    fails or a constraint that is violated; and the call that raised is
    the last thing the run did. *)
Theorem errors_propagate (h : Handler) (__name__ : string) (w : World)
  (exc : Exception) :
  plain (debug_py __name__)
  /\ (raises h (debug_py __name__) w exc
      <-> result (run h (debug_py __name__) w) = Raise exc)
  /\ (result (run h (debug_py __name__) w) = Raise exc ->
      exists tr X (e : Call X) w0 w1,
        trace (run h (debug_py __name__) w) = (tr ++ [event e])%list
        /\ h X e w0 = (w1, Raise exc)
        /\ final (run h (debug_py __name__) w) = w1).
Proof.
  pose proof (debug_py_plain __name__) as P.
  split; [exact P|]. split.
  - now apply run_raises.
  - now apply run_stops_at_error.
Qed.

Lemma errors_propagate_witness :
  result (run (libraries continue_) (debug_py "__main__") bare)
  = Raise (ModuleNotFoundError "ipdb")
  /\ result (run offline (debug_py "__main__") laptop)
     = Raise OperationalError
  /\ exists tr X (e : Call X) w0 w1,
       trace (run offline (debug_py "__main__") laptop)
       = (tr ++ [event e])%list
       /\ offline X e w0 = (w1, Raise OperationalError)
       /\ final (run offline (debug_py "__main__") laptop) = w1.
Proof.
  split; [|split].
  - apply (errors_propagate (libraries continue_) "__main__" bare).
    unfold debug_py. cbn.
    repeat (eapply raises_later; [reflexivity|]; cbn).
    eapply raises_now. reflexivity.
  - apply (errors_propagate offline "__main__" laptop).
    unfold debug_py. cbn.
    repeat (eapply raises_later; [reflexivity|]; cbn).
    eapply raises_now. reflexivity.
  - apply (errors_propagate offline "__main__" laptop OperationalError).
    reflexivity.
Defined.

(** C9, as stated, fails: the source names the engine.  The connection
    string the script passes to [create_engine] selects the SQLite
    dialect and the file [seed_db.db]. *)
Lemma engine_is_named_in_source :
  engine_urls (trace (run (libraries continue_) (debug_py "__main__") laptop))
  = ["sqlite:///seed_db.db"]
  /\ parse_url "sqlite:///seed_db.db" = Ok (mkEngine "sqlite" "seed_db.db")
  /\ dialect (mkEngine "sqlite" "seed_db.db") = "sqlite".
Proof. repeat split. Qed.

(** C9, amended. The script connects to the SQLite database file
    [seed_db.db]: whatever the arguments, the environment and the rest of
    the world are, and whatever the libraries answer, the only connection
    string it ever passes to [create_engine] is the literal
    [sqlite:///seed_db.db], which it does pass when run as the main
    program with its modules installed. *)
Theorem connects_to_sqlite_file (h : Handler) (debugger : Debugger)
  (__name__ : string) (w : World) :
  incl (engine_urls (trace (run h (debug_py __name__) w)))
    ["sqlite:///seed_db.db"]
  /\ parse_url "sqlite:///seed_db.db" = Ok (mkEngine "sqlite" "seed_db.db")
  /\ (incl requirements (installed w) ->
      engine_urls
        (trace (run (libraries debugger) (debug_py "__main__") w))
      = ["sqlite:///seed_db.db"]).
Proof.
  split; [|split; [reflexivity|]].
  - unfold debug_py. cbn.
    do 6 (next_call h; [|apply incl_nil_l]).
    destruct (__name__ =? "__main__")%string; cbn; [|apply incl_nil_l].
    next_call h; [|apply incl_refl].
    next_call h; [|apply incl_refl].
    next_call h; [|apply incl_refl].
    next_call h; [|apply incl_refl].
    next_call h; apply incl_refl.
  - intros I.
    assert (M : forall module, In module requirements ->
                  importable w module = true).
    { intros module H. apply importable_installed. now apply I. }
    unfold debug_py. cbn.
    rewrite (M "faker") by (simpl; tauto). cbn.
    rewrite (M "random") by (simpl; tauto). cbn.
    rewrite (M "sqlalchemy") by (simpl; tauto). cbn.
    rewrite (M "sqlalchemy.orm") by (simpl; tauto). cbn.
    rewrite (M "app.db") by (simpl; tauto). cbn.
    rewrite (M "ipdb") by (simpl; tauto). cbn.
    now destruct (debugger w) as [w' [[]|exc]].
Qed.

Lemma connects_to_sqlite_file_witness :
  incl (engine_urls
          (trace (run (libraries quit) (debug_py "__main__") server)))
    ["sqlite:///seed_db.db"]
  /\ engine_urls (trace (run (libraries quit) (debug_py "__main__") server))
     = ["sqlite:///seed_db.db"].
Proof.
  destruct (connects_to_sqlite_file (libraries quit) quit "__main__" server)
    as [A [_ B]].
  split; [exact A|]. apply B. intros module H. exact H.
Defined.



(** C5, as stated, fails: the mapping does not make the id immutable.  An
    update that assigns the first record of the shelf the free id 7 is
    carried out, and the record that was under 1 is then under 7. *)
Lemma id_changed_by_assignment :
  map Game.id shelf = [Some 1; Some 2]
  /\ update evening 1 renumber shelf = Ok renumbered_shelf
  /\ flush true evening 1 renumber shelf = Ok renumbered_shelf
  /\ map Game.id renumbered_shelf = [Some 7; Some 2]
  /\ get 1 renumbered_shelf = None.
Proof. repeat split. Qed.



(** * Further properties of the two files *)

(** ** The script when it is imported *)

(** X1. Under any name other than [__main__] the module body only loads
    its imports and builds the [Faker] object: whatever the libraries
    answer, it creates no engine and never reaches the breakpoint; with
    the five modules of its header installed it makes exactly those six
    calls, leaves the world as found and ends normally. *)
Theorem import_only_loads_modules (h : Handler) (debugger : Debugger)
  (__name__ : string) (w : World) :
  __name__ <> "__main__" ->
  engine_urls (trace (run h (debug_py __name__) w)) = []
  /\ hits_breakpoint (trace (run h (debug_py __name__) w)) = false
  /\ (incl (firstn 5 requirements) (installed w) ->
      run_to_breakpoint (libraries debugger) (debug_py __name__) w
      = (firstn 6 main_trace, w, Exited)
      /\ result (run (libraries debugger) (debug_py __name__) w) = Ok tt).
Proof.
  intros N. apply String.eqb_neq in N.
  split; [|split].
  - unfold debug_py. rewrite N. cbn.
    do 5 (next_call h; [|reflexivity]). now next_call h.
  - unfold debug_py. rewrite N. cbn.
    do 5 (next_call h; [|reflexivity]). now next_call h.
  - intros I.
    assert (M : forall module, In module (firstn 5 requirements) ->
                  importable w module = true).
    { intros module H. apply importable_installed. now apply I. }
    unfold debug_py. rewrite N. cbn.
    rewrite (M "faker") by (simpl; tauto). cbn.
    rewrite (M "random") by (simpl; tauto). cbn.
    rewrite (M "sqlalchemy") by (simpl; tauto). cbn.
    rewrite (M "sqlalchemy.orm") by (simpl; tauto). cbn.
    rewrite (M "app.db") by (simpl; tauto). cbn.
    now split.
Qed.

Lemma import_only_loads_modules_witness :
  engine_urls (trace (run (libraries quit) (debug_py "debug") bare)) = []
  /\ hits_breakpoint (trace (run (libraries quit) (debug_py "debug") bare))
     = false
  /\ run_to_breakpoint (libraries quit) (debug_py "debug") bare
     = (firstn 6 main_trace, bare, Exited)
  /\ result (run (libraries quit) (debug_py "debug") bare) = Ok tt.
Proof.
  destruct (import_only_loads_modules (libraries quit) quit "debug" bare)
    as [A [B C]]; [discriminate|].
  split; [exact A|]. split; [exact B|].
  apply C. intros module H. exact H.
Defined.

(** ** What can make the script fail *)



(** ** Which engine the session uses *)

(** Case analysis on the outcome of the next call, keeping its equation. *)
Ltac next_call_eq h :=
  match goal with
  | |- context [h ?X ?e ?w] =>
      let E := fresh "E" in
      destruct (h X e w) as [? [?|?]] eqn:E; cbn
  end.

(** X3. The session is made for the engine of the connection string:
    whatever the libraries answer, the only engine the script passes to
    [sessionmaker] is one that [create_engine] returned for
    [sqlite:///seed_db.db], and the only class it instantiates is one
    that [sessionmaker] returned for that engine.  With the libraries as
    modelled, every session class is bound to the SQLite file
    [seed_db.db]. *)
Theorem session_uses_the_engine (h : Handler) (debugger : Debugger)
  (__name__ : string) (w : World) :
  (forall e,
      In e (sessionmaker_binds (trace (run h (debug_py __name__) w))) ->
      exists w1 w2,
        h Engine (Create_engine "sqlite:///seed_db.db") w1 = (w2, Ok e))
  /\ (forall cls,
         In cls (session_classes (trace (run h (debug_py __name__) w))) ->
         exists e w1 w2,
           h SessionClass (Sessionmaker_call e) w1 = (w2, Ok cls)
           /\ In e (sessionmaker_binds (trace (run h (debug_py __name__) w))))
  /\ (forall cls,
         In cls (session_classes
                   (trace (run (libraries debugger) (debug_py __name__) w))) ->
         bind cls = mkEngine "sqlite" "seed_db.db").
Proof.
  assert (G : forall h0 : Handler,
    (forall e,
        In e (sessionmaker_binds (trace (run h0 (debug_py __name__) w))) ->
        exists w1 w2,
          h0 Engine (Create_engine "sqlite:///seed_db.db") w1 = (w2, Ok e))
    /\ (forall cls,
           In cls (session_classes (trace (run h0 (debug_py __name__) w))) ->
           exists e w1 w2,
             h0 SessionClass (Sessionmaker_call e) w1 = (w2, Ok cls)
             /\ In e (sessionmaker_binds
                        (trace (run h0 (debug_py __name__) w))))).
  { intros h0. unfold debug_py. cbn.
    do 6 (next_call_eq h0; [|split; intros ? []]).
    destruct (__name__ =? "__main__")%string; cbn; [|split; intros ? []].
    next_call_eq h0; [|split; intros ? []].
    next_call_eq h0; [|split; [intros ? [<-|[]]; eauto|intros ? []]].
    next_call_eq h0;
      [|split; [intros ? [<-|[]]; eauto|
                intros ? [<-|[]]; do 3 eexists; split; [eassumption|now left]]].
    next_call_eq h0;
      [|split; [intros ? [<-|[]]; eauto|
                intros ? [<-|[]]; do 3 eexists; split; [eassumption|now left]]].
    next_call_eq h0;
      (split; [intros ? [<-|[]]; eauto|
               intros ? [<-|[]]; do 3 eexists; split; [eassumption|now left]]). }
  destruct (G h) as [A B]. split; [exact A|]. split; [exact B|].
  intros cls H.
  destruct (G (libraries debugger)) as [A' B'].
  destruct (B' cls H) as [e [w1 [w2 [E I]]]].
  destruct (A' e I) as [w3 [w4 E']].
  simpl in E, E'. injection E as _ <-. injection E' as _ <-. reflexivity.
Qed.

Lemma session_uses_the_engine_witness :
  session_classes
    (trace (run (libraries quit) (debug_py "__main__") laptop))
  = [mkSessionClass (mkEngine "sqlite" "seed_db.db")]
  /\ forall cls,
       In cls [mkSessionClass (mkEngine "sqlite" "seed_db.db")] ->
       bind cls = mkEngine "sqlite" "seed_db.db".
Proof.
  split; [reflexivity|].
  exact (proj2 (proj2 (session_uses_the_engine (libraries quit) quit
                         "__main__" laptop))).
Defined.

(** ** Reading a [repr] back *)

Lemma occurs_uint (d : Decimal.uint) :
  occurs "," (NilEmpty.string_of_uint d) = false.
Proof. induction d; simpl; assumption || reflexivity. Qed.

Lemma occurs_int (d : Decimal.int) :
  occurs "," (NilZero.string_of_int d) = false.
Proof.
  destruct d as [d|d]; simpl; destruct d; simpl;
    reflexivity || apply occurs_uint.
Qed.

Lemma occurs_str_id (o : option Z) : occurs "," (str o) = false.
Proof.
  destruct o as [z|]; [|reflexivity]. apply occurs_int.
Qed.

(** The text before the first occurrence of a character is determined. *)
Lemma before_first (ch : ascii) (a b ra rb : string) :
  occurs ch a = false -> occurs ch b = false ->
  (a ++ String ch ra = b ++ String ch rb)%string ->
  a = b.
Proof.
  revert b. induction a as [|x a IH]; intros [|y b]; simpl; intros Ha Hb H.
  - reflexivity.
  - injection H as E _. subst y. rewrite Ascii.eqb_refl in Hb. discriminate.
  - injection H as E _. subst x. rewrite Ascii.eqb_refl in Ha. discriminate.
  - injection H as E H. subst y.
    apply orb_false_iff in Ha, Hb. f_equal. apply IH with (b := b); tauto.
Qed.

Lemma to_int_proper (z : Z) :
  Z.to_int z <> Decimal.Pos Decimal.Nil /\ Z.to_int z <> Decimal.Neg Decimal.Nil.
Proof.
  destruct z as [|p|p]; simpl; split; try discriminate;
    intros [= H]; now apply (Unsigned.to_uint_nonnil p).
Qed.

Lemma str_int_parses (z : Z) :
  NilZero.int_of_string (str z) = Some (Z.to_int z).
Proof.
  destruct (to_int_proper z) as [P N]. now apply NilZero.isi.
Qed.

(** [str] of an id can be read back: distinct ids print differently, and
    no integer prints as [None]. *)
Lemma str_id_inj (o o' : option Z) : str o = str o' -> o = o'.
Proof.
  destruct o as [z|], o' as [z'|]; intros H.
  - f_equal. apply DecimalZ.to_int_inj.
    assert (E : NilZero.int_of_string (str z)
                = NilZero.int_of_string (str z')).
    { change (str (Some z)) with (str z) in H.
      change (str (Some z')) with (str z') in H. now rewrite H. }
    rewrite !str_int_parses in E. now injection E.
  - change (str (Some z)) with (str z) in H.
    pose proof (str_int_parses z) as E. rewrite H in E. discriminate E.
  - change (str (Some z')) with (str z') in H.
    pose proof (str_int_parses z') as E. rewrite <- H in E. discriminate E.
  - reflexivity.
Qed.

(** X4. The id can be read back from a [repr]: two games that print
    alike have the same id, set or unset. *)
Theorem repr_determines_id (g g' : Game.t) :
  Game.__repr__ g = Game.__repr__ g' -> Game.id g = Game.id g'.
Proof.
  unfold Game.__repr__. rewrite !append_assoc. simpl.
  intros [= H]. apply str_id_inj.
  apply before_first with (ch := ","%char) (2 := occurs_str_id (Game.id g'))
    in H; [exact H|apply occurs_str_id].
Qed.

Lemma repr_determines_id_witness :
  Game.id zelda_row = Game.id discounted_row.
Proof.
  exact (repr_determines_id zelda_row discounted_row eq_refl).
Defined.

(** X5. Titles and platforms cannot be read back from a [repr], which
    quotes them without escaping: an unset title or platform prints like
    the string [None], and a quote inside a title can pass for the end of
    the title, so that games with different titles and platforms print
    alike. *)
Theorem repr_does_not_escape (id : option Z) (title genre platform : option string)
  (price : option Z) (created_at updated_at : option Timestamp)
  (x y z : string) :
  Game.__repr__ (Game.mk id None genre platform price created_at updated_at)
  = Game.__repr__ (Game.mk id (Some "None") genre platform price created_at
                     updated_at)
  /\ Game.__repr__ (Game.mk id title genre None price created_at updated_at)
     = Game.__repr__ (Game.mk id title genre (Some "None") price created_at
                        updated_at)
  /\ Game.__repr__
       (Game.mk id (Some (x ++ dq ++ ", platform=" ++ dq ++ y)%string) genre
          (Some z) price created_at updated_at)
     = Game.__repr__
         (Game.mk id (Some x) genre
            (Some (y ++ dq ++ ", platform=" ++ dq ++ z)%string) price
            created_at updated_at).
Proof.
  split; [reflexivity|]. split; [reflexivity|].
  unfold Game.__repr__. cbn [Game.id Game.title Game.platform].
  f_equal. cbv [str Str_optional Str_str].
  repeat first [rewrite append_assoc | progress simpl]. reflexivity.
Qed.

(** ** Stored records: round trip, frame, allocation *)

Lemma get_has_pk (pk : Z) (t : Table) (r : Game.t) :
  get pk t = Some r -> has_pk pk t = true.
Proof.
  intros G. destruct (get_some _ _ _ G) as [I Hid].
  apply has_pk_In. apply in_map_iff. now exists r.
Qed.

Lemma get_app_found (pk : Z) (t l : Table) (r : Game.t) :
  get pk t = Some r -> get pk (t ++ l)%list = Some r.
Proof.
  unfold get. induction t as [|x t IH]; simpl; [discriminate|].
  destruct (is_pk pk x); [easy|exact IH].
Qed.

Lemma get_replace_other (pk pk' rowid : Z) (row r0 : Game.t) (t : Table) :
  pk' <> pk ->
  Game.id row = Some rowid ->
  rowid = pk \/ has_pk rowid t = false ->
  get pk' t = Some r0 ->
  get pk' (map (replace_row pk row) t) = Some r0.
Proof.
  intros N Hrow. unfold get, has_pk, replace_row.
  induction t as [|x t IH]; simpl; [discriminate|].
  intros F G.
  assert (Ft : rowid = pk \/ existsb (is_pk rowid) t = false).
  { destruct F as [F|F]; [now left|right].
    apply orb_false_iff in F. tauto. }
  destruct (is_pk pk x) eqn:P.
  - apply is_pk_id in P.
    assert (Px : is_pk pk' x = false).
    { destruct (is_pk pk' x) eqn:E; [|reflexivity].
      apply is_pk_id in E. congruence. }
    rewrite Px in G.
    assert (Pr : is_pk pk' row = false).
    { destruct (is_pk pk' row) eqn:E; [|reflexivity].
      apply is_pk_id in E. assert (rowid = pk') by congruence. subst rowid.
      destruct Ft as [Ft|Ft]; [congruence|].
      pose proof (get_has_pk pk' t r0 G) as K. unfold has_pk in K.
      congruence. }
    rewrite Pr. now apply IH.
  - destruct (is_pk pk' x); [exact G|now apply IH].
Qed.



(** X7. An insert adds one row and disturbs no other: every record that
    could be retrieved before is retrieved unchanged afterwards. *)
Theorem insert_keeps_other_rows (m : Moment) (g : Game.t) (t : Table)
  (r : Game.t) (t' : Table) :
  insert m g t = Ok (r, t') ->
  List.length t' = S (List.length t)
  /\ (forall pk r0, get pk t = Some r0 -> get pk t' = Some r0).
Proof.
  intros H. destruct (insert_ok _ _ _ _ _ H) as [i [_ [-> _]]]. split.
  - rewrite length_app. simpl. lia.
  - intros pk r0 G. now apply get_app_found.
Qed.

Lemma insert_keeps_other_rows_witness :
  List.length shelf = S (List.length seeded)
  /\ (forall pk r0, get pk seeded = Some r0 -> get pk shelf = Some r0).
Proof.
  exact (insert_keeps_other_rows later (priced 60) seeded tetris_row shelf
           eq_refl).
Defined.

(** X8. An update rewrites the record it was issued for and no other: the
    number of rows is unchanged, and every record under another id is
    retrieved unchanged afterwards. *)
Theorem update_keeps_other_rows (m : Moment) (pk : Z) (a : Assign.t)
  (t t' : Table) :
  update m pk a t = Ok t' ->
  List.length t' = List.length t
  /\ (forall pk' r0,
         pk' <> pk -> get pk' t = Some r0 -> get pk' t' = Some r0).
Proof.
  intros H. destruct (update_ok _ _ _ _ _ H) as [r [G C]].
  destruct C as [[_ ->]|[_ [rowid [_ [F ->]]]]]; [now split|].
  split; [apply length_map|].
  intros pk' r0 N G'.
  now apply get_replace_other with (rowid := rowid).
Qed.

Lemma update_keeps_other_rows_witness :
  List.length discounted_shelf = List.length shelf
  /\ (forall pk' r0,
         pk' <> 1 -> get pk' shelf = Some r0 ->
         get pk' discounted_shelf = Some r0).
Proof.
  exact (update_keeps_other_rows evening 1 discount shelf discounted_shelf
           eq_refl).
Defined.

Lemma insert_value_succeeds {ty : SqlType} (col : Column ty) (m : Moment)
  (v : option (py ty)) :
  (forall x, v = Some x -> fits ty x = true) ->
  exists p, insert_value col m v = Ok p.
Proof.
  intros F. unfold insert_value, bind_param. destruct v as [x|].
  - rewrite (F x eq_refl). now eexists.
  - now eexists.
Qed.

(** X9. The primary key is enforced: inserting a record under an id that
    is in use raises [IntegrityError], and so does moving a record to an
    id that another record holds. *)
Theorem duplicate_id_is_refused (m : Moment) (t : Table) (i : Z) :
  has_pk i t = true ->
  MIN_INT64 <= i <= MAX_ROWID ->
  (forall g,
      Game.id g = Some i ->
      (forall v, Game.price g = Some v -> MIN_INT64 <= v <= MAX_ROWID) ->
      insert m g t = Raise IntegrityError)
  /\ (forall pk a r,
         get pk t = Some r ->
         pk <> i ->
         Assign.id a = Some (Some i) ->
         (forall v, Assign.price a = Some (Some v) ->
                    MIN_INT64 <= v <= MAX_ROWID) ->
         update m pk a t = Raise IntegrityError).
Proof.
  intros Hpk Hi. apply fits_Integer in Hi. split.
  - intros g Hid Hprice. unfold insert. rewrite Hid.
    unfold bind_param at 1. rewrite Hi. simpl.
    destruct (insert_value_succeeds Game.c.title m (Game.title g))
      as [x1 ->]; [reflexivity|].
    destruct (insert_value_succeeds Game.c.genre m (Game.genre g))
      as [x2 ->]; [reflexivity|].
    destruct (insert_value_succeeds Game.c.platform m (Game.platform g))
      as [x3 ->]; [reflexivity|].
    destruct (insert_value_succeeds Game.c.price m (Game.price g))
      as [x4 ->].
    { intros v Hv. apply fits_Integer. now apply Hprice. }
    destruct (insert_value_succeeds Game.c.created_at m (Game.created_at g))
      as [x5 ->]; [reflexivity|].
    destruct (insert_value_succeeds Game.c.updated_at m (Game.updated_at g))
      as [x6 ->]; [reflexivity|].
    simpl. now rewrite Hpk.
  - intros pk a r G N Hid Hprice. unfold update, flush. rewrite G.
    destruct (get_some _ _ _ G) as [_ Hr].
    assert (E : (i =? pk) = false) by (apply Z.eqb_neq; congruence).
    assert (D : dirty false a r = true).
    { unfold dirty. rewrite Hid, Hr. simpl. now rewrite E. }
    rewrite D. simpl. rewrite Hid, Hr. simpl. rewrite E. simpl.
    change ((MIN_INT64 <=? i) && (i <=? MAX_ROWID)) with (fits Integer i).
    rewrite Hi. simpl.
    destruct (update_value_succeeds false Game.c.title m (Assign.title a)
                (Game.title r)) as [x1 ->]; [reflexivity|].
    destruct (update_value_succeeds false Game.c.genre m (Assign.genre a)
                (Game.genre r)) as [x2 ->]; [reflexivity|].
    destruct (update_value_succeeds false Game.c.platform m (Assign.platform a)
                (Game.platform r)) as [x3 ->]; [reflexivity|].
    destruct (update_value_succeeds false Game.c.price m (Assign.price a)
                (Game.price r)) as [x4 ->].
    { intros v Hv. apply fits_Integer. now apply Hprice. }
    destruct (update_value_succeeds false Game.c.created_at m
                (Assign.created_at a) (Game.created_at r)) as [x5 ->];
      [reflexivity|].
    destruct (update_value_succeeds false Game.c.updated_at m
                (Assign.updated_at a) (Game.updated_at r)) as [x6 ->];
      [reflexivity|].
    simpl. rewrite E, Hpk. reflexivity.
Qed.

Lemma duplicate_id_is_refused_witness :
  insert later zelda_row shelf = Raise IntegrityError
  /\ update later 2 (Assign.mk (Some (Some 1)) None None None None None None)
       shelf
     = Raise IntegrityError.
Proof.
  destruct (duplicate_id_is_refused later shelf 1 eq_refl) as [A B].
  { unfold MIN_INT64, MAX_ROWID. lia. }
  split.
  - apply A; [reflexivity|].
    intros v [= <-]. unfold MIN_INT64, MAX_ROWID. lia.
  - apply (B 2 _ tetris_row); try reflexivity; [lia|discriminate].
Defined.

(** X10. Ids are allocated upwards: a record stored without an id, while
    the table has room, gets an id larger than every id in use, and 1 in
    an empty table. *)
Theorem new_id_exceeds_ids_in_use (m : Moment) (g : Game.t) (t : Table)
  (r : Game.t) (t' : Table) :
  Game.id g = None ->
  has_room t ->
  insert m g t = Ok (r, t') ->
  exists i,
    Game.id r = Some i
    /\ (t = [] -> i = 1)
    /\ (forall j, has_pk j t = true -> j < i).
Proof.
  intros Hid Hroom H.
  destruct (insert_ok _ _ _ _ _ H) as [i [Hr [_ [_ [A _]]]]].
  rewrite Hid in A. exists i. split; [now rewrite Hr|].
  unfold new_rowid in A. unfold has_room in Hroom. split.
  - intros ->. simpl in A. now injection A.
  - intros j Hj. destruct (max_rowid_bounds _ _ Hj) as [v [Hv Hle]].
    rewrite Hv in A, Hroom.
    destruct (Z.ltb_spec v MAX_ROWID); [|lia]. injection A as <-. lia.
Qed.

Lemma new_id_exceeds_ids_in_use_witness :
  exists i,
    Game.id tetris_row = Some i
    /\ (seeded = [] -> i = 1)
    /\ (forall j, has_pk j seeded = true -> j < i).
Proof.
  apply (new_id_exceeds_ids_in_use later (priced 60) seeded tetris_row shelf);
    [reflexivity| |reflexivity].
  unfold has_room. simpl. unfold MAX_ROWID. lia.
Defined.

(** ** Any number of updates *)

Lemma update_leaves_created_at (m : Moment) (pk : Z) (a : Assign.t)
  (t t' : Table) (r : Game.t) :
  get pk t = Some r ->
  Assign.id a = None ->
  Assign.created_at a = None ->
  update m pk a t = Ok t' ->
  exists r', get pk t' = Some r' /\ Game.created_at r' = Game.created_at r.
Proof.
  intros G I C H. destruct (dirty false a r) eqn:D.
  - destruct (get_updated _ _ _ _ _ _ G D H) as [rowid [A Gr]].
    rewrite I in A. simpl in A.
    destruct (get_some _ _ _ G) as [_ Hid].
    assert (rowid = pk) by congruence. subst rowid.
    exists (updated_row false m a r pk). split; [exact Gr|].
    unfold updated_row. simpl. now rewrite C.
  - destruct (update_ok _ _ _ _ _ H) as [r0 [G0 K]].
    rewrite G in G0. injection G0 as <-.
    destruct K as [[_ ->]|[D' _]]; [|congruence].
    now exists r.
Qed.

Lemma update_leaves_ids (m : Moment) (pk : Z) (a : Assign.t) (t t' : Table) :
  Assign.id a = None ->
  update m pk a t = Ok t' ->
  map Game.id t' = map Game.id t.
Proof.
  intros I H. destruct (update_ok _ _ _ _ _ H) as [r [G C]].
  destruct C as [[_ ->]|[_ [rowid [A [_ ->]]]]]; [reflexivity|].
  apply replace_same_ids with (rowid := rowid); [reflexivity|].
  rewrite I in A. simpl in A.
  destruct (get_some _ _ _ G) as [_ Hid]. congruence.
Qed.

(** X11. However many times a record is updated, as long as no update
    assigns its id or its [created_at] (nor a price that does not fit),
    every update succeeds, the record stays under its id with the
    [created_at] it had, and the ids of the table stay as they were. *)
Theorem created_at_survives_updates (pk : Z) (l : list (Moment * Assign.t))
  (t : Table) (r : Game.t) :
  get pk t = Some r ->
  Forall (fun ma =>
            Assign.id (snd ma) = None
            /\ Assign.created_at (snd ma) = None
            /\ (forall v, Assign.price (snd ma) = Some (Some v) ->
                          MIN_INT64 <= v <= MAX_ROWID)) l ->
  exists t' r',
    flushes pk l t = Ok t'
    /\ get pk t' = Some r'
    /\ Game.created_at r' = Game.created_at r
    /\ map Game.id t' = map Game.id t.
Proof.
  intros G F. revert t r G.
  induction F as [|[m a] l [I [C P]] _ IH]; intros t r G; simpl in *.
  - now exists t, r.
  - destruct (update_succeeds m pk a t r G I P) as [t1 H1].
    rewrite H1. simpl.
    destruct (update_leaves_created_at _ _ _ _ _ _ G I C H1) as [r1 [G1 C1]].
    destruct (IH t1 r1 G1) as [t' [r' [H' [G' [C' K']]]]].
    exists t', r'. split; [exact H'|]. split; [exact G'|].
    split; [congruence|].
    rewrite K'. now apply update_leaves_ids with (m := m) (pk := pk) (a := a).
Qed.

Lemma created_at_survives_updates_witness :
  exists t' r',
    flushes 1 [(later, discount); (evening, clear_updated_at)] seeded = Ok t'
    /\ get 1 t' = Some r'
    /\ Game.created_at r' = Game.created_at zelda_row
    /\ map Game.id t' = map Game.id seeded.
Proof.
  apply (created_at_survives_updates 1
           [(later, discount); (evening, clear_updated_at)] seeded zelda_row
           eq_refl).
  constructor; [|constructor; [|constructor]]; simpl.
  - split; [reflexivity|]. split; [reflexivity|].
    intros v [= <-]. unfold MIN_INT64, MAX_ROWID. lia.
  - split; [reflexivity|]. split; [reflexivity|]. discriminate.
Defined.

(** ** Updates of the primary key and of the price *)

Lemma get_replaced_away (pk : Z) (row : Game.t) (t : Table) :
  is_pk pk row = false -> get pk (map (replace_row pk row) t) = None.
Proof.
  intros R. unfold get, replace_row.
  induction t as [|x t IH]; simpl; [reflexivity|].
  destruct (is_pk pk x) eqn:P; [now rewrite R|now rewrite P].
Qed.

(** X12. The mapping does not freeze the primary key: an update that
    assigns another id succeeds only if that id is free, and then the
    record is found under the new id, with its other attributes as
    assigned, and no longer under the old one. *)
Theorem record_moves_with_its_id (m : Moment) (pk i : Z) (a : Assign.t)
  (t t' : Table) (r : Game.t) :
  get pk t = Some r ->
  Assign.id a = Some (Some i) ->
  i <> pk ->
  update m pk a t = Ok t' ->
  has_pk i t = false
  /\ get pk t' = None
  /\ exists r',
       get i t' = Some r'
       /\ Game.id r' = Some i
       /\ Game.title r' = assigned (Assign.title a) (Game.title r)
       /\ Game.genre r' = assigned (Assign.genre a) (Game.genre r)
       /\ Game.platform r' = assigned (Assign.platform a) (Game.platform r)
       /\ Game.price r' = assigned (Assign.price a) (Game.price r)
       /\ Game.created_at r'
          = assigned (Assign.created_at a) (Game.created_at r).
Proof.
  intros G I N H.
  destruct (get_some _ _ _ G) as [_ Hid].
  assert (E : (i =? pk) = false) by now apply Z.eqb_neq.
  assert (D : dirty false a r = true).
  { unfold dirty. rewrite I, Hid. simpl. now rewrite E. }
  destruct (update_ok _ _ _ _ _ H) as [r0 [G0 K]].
  rewrite G in G0. injection G0 as <-.
  destruct K as [[D' _]|[_ [rowid [A [F ->]]]]]; [congruence|].
  rewrite I in A. simpl in A. injection A as <-.
  split; [now destruct F|]. split.
  - apply get_replaced_away. unfold is_pk. simpl. exact E.
  - exists (updated_row false m a r i). split.
    + now apply get_replaced with (r := r).
    + simpl. repeat split.
Qed.

Lemma record_moves_with_its_id_witness :
  has_pk 7 shelf = false
  /\ get 1 renumbered_shelf = None
  /\ exists r',
       get 7 renumbered_shelf = Some r'
       /\ Game.id r' = Some 7
       /\ Game.title r' = assigned (Assign.title renumber) (Game.title zelda_row)
       /\ Game.genre r' = assigned (Assign.genre renumber) (Game.genre zelda_row)
       /\ Game.platform r'
          = assigned (Assign.platform renumber) (Game.platform zelda_row)
       /\ Game.price r' = assigned (Assign.price renumber) (Game.price zelda_row)
       /\ Game.created_at r'
          = assigned (Assign.created_at renumber) (Game.created_at zelda_row).
Proof.
  apply (record_moves_with_its_id evening 1 7 renumber shelf renumbered_shelf
           zelda_row); try reflexivity.
  lia.
Defined.

Lemma update_value_cases {ty : SqlType} (expired : bool) (col : Column ty)
  (m : Moment) (a : option (option (py ty))) (cur : option (py ty)) :
  (exists p, update_value expired col m a cur = Ok p)
  \/ update_value expired col m a cur = Raise OverflowError.
Proof.
  unfold update_value. destruct a as [v|]; [|left; now eexists].
  destruct (expired || negb (optional_eqb ty v cur)); [|left; now eexists].
  unfold bind_param. destruct v as [x|]; [|left; now eexists].
  destruct (fits ty x); [left; now eexists|now right].
Qed.

Lemma flush_price_fits (expired : bool) (m : Moment) (pk : Z) (a : Assign.t)
  (t t' : Table) (r : Game.t) :
  get pk t = Some r ->
  flush expired m pk a t = Ok t' ->
  changed expired Integer (Assign.price a) (Game.price r) = true ->
  forall v, assigned (Assign.price a) (Game.price r) = Some v ->
            fits Integer v = true.
Proof.
  intros G H C. unfold flush in H. rewrite G in H.
  assert (D : dirty expired a r = true).
  { unfold dirty. rewrite C. now rewrite !orb_true_r. }
  rewrite D in H. simpl in H. chain H.
  apply (update_value_plain expired Game.c.price m _ _ _ eq_refl) in Hx3.
  destruct Hx3 as [-> F]. intros v Hv. now apply (F C).
Qed.

(** Every price the storage layer holds fits a SQLite INTEGER. *)
Lemma reachable_prices (t : Table) :
  reachable t ->
  Forall (fun r => forall v, Game.price r = Some v -> fits Integer v = true)
    t.
Proof.
  induction 1 as [|m g t r t' _ IH H|expired m pk a t t' _ IH H].
  - constructor.
  - destruct (insert_ok _ _ _ _ _ H) as [i [Hr [-> [_ [_ F]]]]].
    apply Forall_app. split; [exact IH|].
    constructor; [|constructor]. intros v Hv. rewrite Hr in Hv.
    apply fits_Integer. now apply F.
  - destruct (flush_ok _ _ _ _ _ _ H) as [r [G C]].
    destruct C as [[_ ->]|[_ [rowid [_ [_ ->]]]]]; [exact IH|].
    apply Forall_map. apply Forall_impl with (2 := IH).
    intros x Hx. unfold replace_row. destruct (is_pk pk x); [|exact Hx].
    unfold updated_row. simpl. intros v Hv.
    destruct (changed expired Integer (Assign.price a) (Game.price r))
      eqn:E.
    + exact (flush_price_fits _ _ _ _ _ _ _ G H E v Hv).
    + apply changed_false_assigned in E.
      destruct (get_some _ _ _ G) as [I _].
      rewrite Forall_forall in IH. apply (IH r I).
      exact (eq_trans (eq_sym E) Hv).
Qed.

(** X13. A flush that assigns an existing record a price outside the
    signed 64-bit range raises [OverflowError], whatever else it assigns
    and whether the object was loaded or expired; nothing is written. *)
Theorem update_price_overflow (expired : bool) (m : Moment) (pk : Z)
  (a : Assign.t) (t : Table) (r : Game.t) (v : Z) :
  reachable t ->
  get pk t = Some r ->
  Assign.price a = Some (Some v) ->
  ~ (MIN_INT64 <= v <= MAX_ROWID) ->
  flush expired m pk a t = Raise OverflowError.
Proof.
  intros R G P F.
  assert (Fv : fits Integer v = false).
  { destruct (fits Integer v) eqn:E; [|reflexivity].
    apply fits_Integer in E. contradiction. }
  assert (C : optional_eqb Integer (Some v) (Game.price r) = false).
  { destruct (optional_eqb Integer (Some v) (Game.price r)) eqn:E;
      [|reflexivity].
    apply optional_eqb_eq in E.
    pose proof (reachable_prices _ R) as K. rewrite Forall_forall in K.
    destruct (get_some _ _ _ G) as [I _].
    rewrite (K r I v (eq_sym E)) in Fv. discriminate. }
  assert (D : dirty expired a r = true).
  { unfold dirty. rewrite P. unfold changed at 5. rewrite C. simpl.
    now rewrite !orb_true_r. }
  unfold flush. rewrite G, D. simpl.
  destruct (update_value_cases false Game.c.id m (Assign.id a) (Game.id r))
    as [[x0 ->]| ->]; [simpl|reflexivity].
  destruct (update_value_succeeds expired Game.c.title m (Assign.title a)
              (Game.title r)) as [x1 ->]; [reflexivity|].
  destruct (update_value_succeeds expired Game.c.genre m (Assign.genre a)
              (Game.genre r)) as [x2 ->]; [reflexivity|].
  destruct (update_value_succeeds expired Game.c.platform m
              (Assign.platform a) (Game.platform r)) as [x3 ->];
    [reflexivity|].
  simpl. rewrite P. unfold update_value. rewrite C.
  rewrite orb_true_r. unfold bind_param. now rewrite Fv.
Qed.

Lemma update_price_overflow_witness :
  update later 1
    (Assign.mk None None None None (Some (Some (2 ^ 63))) None None) seeded
  = Raise OverflowError
  /\ flush true later 1
       (Assign.mk (Some None) None None None (Some (Some (2 ^ 63))) None
          None) seeded
     = Raise OverflowError.
Proof.
  split.
  - apply (update_price_overflow false later 1
             (Assign.mk None None None None (Some (Some (2 ^ 63))) None None)
             seeded zelda_row (2 ^ 63) reachable_seeded eq_refl eq_refl).
    unfold MIN_INT64, MAX_ROWID. lia.
  - apply (update_price_overflow true later 1
             (Assign.mk (Some None) None None None (Some (Some (2 ^ 63)))
                None None)
             seeded zelda_row (2 ^ 63) reachable_seeded eq_refl eq_refl).
    unfold MIN_INT64, MAX_ROWID. lia.
Defined.
